(** * Session registry of the Trino ODBC bridge (trino-odbc-driver.py)

    A shallow embedding of [ConnectionManager] and of the lock discipline
    its methods follow, with the properties of the registry proved over it.

    Layout: Python values and dictionaries; the backend capability
    (trino.dbapi) as a type class; the methods of [ConnectionManager] in a
    state-and-exception monad; a small-step model of the methods running
    in several threads under [self.lock]; then the theorems. *)

From Stdlib Require Import String Ascii List ZArith Bool Lia.
Import ListNotations.
Local Open Scope string_scope.
Local Open Scope list_scope.

Set Implicit Arguments.
Set Warnings "-register-all".

(* ================================================================== *)
(** ** Python values *)

(** The JSON-shaped values that travel through the registry: connection
    parameters, query parameters, result cells. *)
Inductive pyval : Type :=
| VNone
| VBool (b : bool)
| VInt (z : Z)
| VStr (s : string)
| VList (items : list pyval)
| VDict (entries : list (string * pyval)).

(** Python truthiness, as tested by [if x:] and by [and]. *)
Definition truthy (v : pyval) : bool :=
  match v with
  | VNone => false
  | VBool b => b
  | VInt z => negb (Z.eqb z 0)
  | VStr s => negb (String.eqb s "")
  | VList items => match items with [] => false | _ => true end
  | VDict entries => match entries with [] => false | _ => true end
  end.

(** [a and b]: the first operand when it is falsy, else the second. *)
Definition py_and (a b : pyval) : pyval := if truthy a then b else a.

(* ================================================================== *)
(** ** Python dictionaries with string keys

    A [dict] keeps its keys in insertion order and [close_connection]
    walks [self.cursors.items()] in that order, so a dictionary is an
    association list: assignment to a present key updates it in place,
    assignment to a new key appends, [del] removes the key. *)

Module Dict.
Section Ops.
Variable V : Type.

Definition t := list (string * V).

Definition empty : t := [].

(** [d.get(k)] / [d[k]]: [None] stands for the absent key. *)
Fixpoint get (k : string) (d : t) : option V :=
  match d with
  | [] => None
  | (k', v) :: rest => if String.eqb k k' then Some v else get k rest
  end.

(** [k in d] *)
Definition mem (k : string) (d : t) : bool :=
  match get k d with Some _ => true | None => false end.

(** [d[k] = v] *)
Fixpoint set (k : string) (v : V) (d : t) : t :=
  match d with
  | [] => [(k, v)]
  | (k', v') :: rest =>
      if String.eqb k k' then (k', v) :: rest else (k', v') :: set k v rest
  end.

(** [del d[k]] on a present key. *)
Definition del (k : string) (d : t) : t :=
  filter (fun kv => negb (String.eqb k (fst kv))) d.

(** [list(d)]: the keys in insertion order. *)
Definition keys (d : t) : list string := map fst d.
End Ops.
End Dict.

Arguments Dict.empty {V}.

(** [d.get(k, default)] on a dictionary of Python values. *)
Definition get_default (d : Dict.t pyval) (k : string) (default : pyval) : pyval :=
  match Dict.get k d with Some v => v | None => default end.

(** [dict(zip(names, row))]: the pairs are inserted from left to right, so
    a repeated column name keeps its first position and its last value. *)
Definition dict_of_zip (names : list string) (row : list pyval) : Dict.t pyval :=
  fold_left (fun d nv => Dict.set (fst nv) (snd nv) d) (combine names row) Dict.empty.

(* ================================================================== *)
(** ** The backend capability (trino.dbapi, uuid)

    The driver library is external: its sessions and cursors are opaque
    mutable objects.  [Conn] and [Cursor] are references to such objects,
    [World] holds whatever state the library and the server keep behind
    them, and a call that raises returns [inl] of the exception's
    [str()]. *)

(** The keyword arguments of [trino.dbapi.connect]. *)
Record ConnectArgs : Type := {
  host : pyval;
  port : pyval;
  user : pyval;
  catalog : pyval;
  schema : pyval;
  auth : option (pyval * pyval);   (* BasicAuthentication(user, password) or None *)
  http_scheme : pyval;
  verify : pyval;
  session_properties : pyval
}.

(** The two shapes of call [execute_query] makes on a backend cursor. *)
Inductive ExecuteCall : Type :=
| ExecuteQueryOnly (query : string)                               (* cursor.execute(query) *)
| ExecuteWithParameters (query : string) (parameters : list pyval). (* cursor.execute(query, parameters) *)

(** One entry of [cursor.description] (a DB-API 7-tuple). *)
Record Column : Type := {
  col_name : string;
  col_type_code : pyval;
  col_display_size : pyval;
  col_internal_size : pyval;
  col_precision : pyval;
  col_scale : pyval;
  col_null_ok : pyval
}.

Class Backend : Type := {
  World : Type;
  Conn : Type;
  Cursor : Type;
  (* trino.dbapi.connect(host=..., ...) *)
  trino_connect : ConnectArgs -> World -> (string + Conn) * World;
  (* conn.cursor() *)
  conn_cursor : Conn -> World -> (string + Cursor) * World;
  (* conn.close() *)
  conn_close : Conn -> World -> (string + unit) * World;
  (* cursor.close() *)
  cursor_close : Cursor -> World -> (string + unit) * World;
  (* cursor.execute(...) *)
  cursor_execute : Cursor -> ExecuteCall -> World -> (string + unit) * World;
  (* cursor.fetchmany(size) *)
  cursor_fetchmany : Cursor -> Z -> World -> (string + list (list pyval)) * World;
  (* cursor.description: None or a list of columns *)
  cursor_description : Cursor -> World -> option (list Column);
  (* cursor.rowcount *)
  cursor_rowcount : Cursor -> World -> Z
}.

(** The DB-API contract of [fetchmany]: no more than [size] rows. *)
Definition fetchmany_bounded (B : Backend) : Prop :=
  forall (c : Cursor) (size : Z) (w w' : World) (rows : list (list pyval)),
    (0 <= size)%Z ->
    cursor_fetchmany c size w = (inr rows, w') ->
    (Z.of_nat (length rows) <= size)%Z.

(** [str(uuid.uuid4())]: 36 characters, lower-case hexadecimal digits in
    groups of 8-4-4-4-12 separated by hyphens.  The draws themselves come
    from the system's random source and are arguments of the model. *)
Definition is_hex_digit (c : ascii) : bool :=
  let n := nat_of_ascii c in
  ((48 <=? n)%nat && (n <=? 57)%nat) || ((97 <=? n)%nat && (n <=? 102)%nat).

Fixpoint uuid_chars (i : nat) (cs : list ascii) : bool :=
  match cs with
  | [] => true
  | c :: rest =>
      (if (i =? 8)%nat || (i =? 13)%nat || (i =? 18)%nat || (i =? 23)%nat
       then Ascii.eqb c "-"%char else is_hex_digit c)
      && uuid_chars (S i) rest
  end.

Definition is_uuid_str (s : string) : bool :=
  (String.length s =? 36)%nat && uuid_chars 0 (list_ascii_of_string s).

(* ================================================================== *)
(** ** State, exceptions and the method monad *)

Inductive exn : Type :=
| TrinoODBCError (msg : string)    (* the driver's own exception class *)
| BackendError (msg : string)      (* raised inside trino.dbapi; [msg] is its str() *)
| KeyError (key : string).         (* a subscript or del on an absent key *)

(** [str(e)] *)
Definition str_exn (e : exn) : string :=
  match e with
  | TrinoODBCError msg => msg
  | BackendError msg => msg
  | KeyError key => "'" ++ key ++ "'"
  end.

Inductive result (A : Type) : Type :=
| Return (a : A)
| Raise (e : exn).
Arguments Return {A} a.
Arguments Raise {A} e.

Section Registry.
Context {B : Backend}.

(** The three dictionaries of [ConnectionManager.__init__]. *)
Record ConnectionManager : Type := {
  connections : Dict.t Conn;
  cursors : Dict.t Cursor;
  connection_params : Dict.t (Dict.t pyval)
}.

Record State : Type := {
  self : ConnectionManager;
  world : World
}.

Definition init (w : World) : State :=
  {| self := {| connections := Dict.empty; cursors := Dict.empty;
                connection_params := Dict.empty |};
     world := w |}.

Definition M (A : Type) : Type := State -> result A * State.

Definition ret {A} (a : A) : M A := fun s => (Return a, s).

Definition bind {A C} (m : M A) (k : A -> M C) : M C :=
  fun s => match m s with
           | (Return a, s') => k a s'
           | (Raise e, s') => (Raise e, s')
           end.

Definition raise {A} (e : exn) : M A := fun s => (Raise e, s).

(** [try: body  except Exception as e: handler(e)] *)
Definition try_except {A} (body : M A) (handler : exn -> M A) : M A :=
  fun s => match body s with
           | (Return a, s') => (Return a, s')
           | (Raise e, s') => handler e s'
           end.

Definition get_self : M ConnectionManager := fun s => (Return (self s), s).

Definition put_self (m : ConnectionManager) : M unit :=
  fun s => (Return tt, {| self := m; world := world s |}).

(** A call into the backend; what it raises surfaces as [BackendError]. *)
Definition backend {A} (call : World -> (string + A) * World) : M A :=
  fun s => match call (world s) with
           | (inr a, w') => (Return a, {| self := self s; world := w' |})
           | (inl msg, w') => (Raise (BackendError msg), {| self := self s; world := w' |})
           end.

(** Reading an attribute of a backend object. *)
Definition attribute {A} (f : World -> A) : M A :=
  fun s => (Return (f (world s)), s).

(** [d[k]] as an expression: [KeyError] on an absent key. *)
Definition subscript {V} (d : Dict.t V) (k : string) : M V :=
  match Dict.get k d with
  | Some v => ret v
  | None => raise (KeyError k)
  end.

(** [del d[k]]: [KeyError] on an absent key. *)
Definition del_item {V} (d : Dict.t V) (k : string) : M (Dict.t V) :=
  if Dict.mem k d then ret (Dict.del k d) else raise (KeyError k).

End Registry.

Declare Scope py_scope.
Delimit Scope py_scope with py.
Notation "x <- m ;; k" := (bind m (fun x => k))
  (at level 61, m at next level, right associativity) : py_scope.
Notation "m ;; k" := (bind m (fun _ => k))
  (at level 61, right associativity) : py_scope.
Local Open Scope py_scope.

(* ================================================================== *)
(** ** The methods of [ConnectionManager]

    Each method is the body of the Python method, statement by statement.
    [uuid4] is the string drawn by [str(uuid.uuid4())] in that call.
    Logging has no effect on the registry and is left out. *)

(** What [execute_query] returns: keys "success", "columns", "rowcount". *)
Record ExecuteResult : Type := {
  exec_success : bool;
  exec_columns : list Column;
  exec_rowcount : Z
}.

(** What [fetch_results] returns: keys "success", "rows", "has_more". *)
Record FetchResult : Type := {
  fetch_success : bool;
  fetch_rows : list pyval;
  fetch_has_more : bool
}.

(** The marker [get_connection_info] writes over the password. *)
Definition password_mask : pyval := VStr "***".

Section Methods.
Context {B : Backend}.

Definition connect_args (params : Dict.t pyval) (auth : option (pyval * pyval))
  : ConnectArgs :=
  {| host := get_default params "host" (VStr "localhost");
     port := get_default params "port" (VInt 8080);
     user := get_default params "user" (VStr "trino");
     catalog := get_default params "catalog" VNone;
     schema := get_default params "schema" VNone;
     auth := auth;
     http_scheme := get_default params "http_scheme" (VStr "http");
     verify := get_default params "verify" (VBool true);
     session_properties := get_default params "session_properties" (VDict []) |}.

(** [auth]: a [BasicAuthentication] only when both [params.get('user')] and
    [params.get('password')] are truthy (the subscripts [params['user']] and
    [params['password']] then read present keys). *)
Definition basic_auth (params : Dict.t pyval) : option (pyval * pyval) :=
  if truthy (py_and (get_default params "user" VNone)
                    (get_default params "password" VNone))
  then Some (get_default params "user" VNone, get_default params "password" VNone)
  else None.

Definition create_connection (uuid4 : string) (params : Dict.t pyval) : M string :=
  let connection_id := uuid4 in
  try_except
    (let auth := basic_auth params in
     conn <- backend (trino_connect (connect_args params auth)) ;;
     m <- get_self ;;
     put_self {| connections := Dict.set connection_id conn (connections m);
                 cursors := cursors m;
                 connection_params := Dict.set connection_id params (connection_params m) |} ;;
     ret connection_id)
    (fun e => raise (TrinoODBCError ("Failed to connect to Trino: " ++ str_exn e))).

(** The loop [for cursor_id in cursors_to_close: ...] of [close_connection]. *)
Fixpoint close_cursors (cursors_to_close : list string) : M unit :=
  match cursors_to_close with
  | [] => ret tt
  | cursor_id :: rest =>
      m <- get_self ;;
      cursor <- subscript (cursors m) cursor_id ;;
      backend (cursor_close cursor) ;;
      m <- get_self ;;
      cs <- del_item (cursors m) cursor_id ;;
      put_self {| connections := connections m; cursors := cs;
                  connection_params := connection_params m |} ;;
      close_cursors rest
  end.

Definition close_connection (connection_id : string) : M bool :=
  m <- get_self ;;
  if Dict.mem connection_id (connections m) then
    let cursors_to_close :=
      filter (fun cursor_id => String.prefix connection_id cursor_id)
             (Dict.keys (cursors m)) in
    close_cursors cursors_to_close ;;
    m <- get_self ;;
    conn <- subscript (connections m) connection_id ;;
    backend (conn_close conn) ;;
    m <- get_self ;;
    conns <- del_item (connections m) connection_id ;;
    put_self {| connections := conns; cursors := cursors m;
                connection_params := connection_params m |} ;;
    m <- get_self ;;
    ps <- del_item (connection_params m) connection_id ;;
    put_self {| connections := connections m; cursors := cursors m;
                connection_params := ps |} ;;
    ret true
  else
    ret false.

Definition create_cursor (connection_id : string) (uuid4 : string) : M string :=
  m <- get_self ;;
  if negb (Dict.mem connection_id (connections m)) then
    raise (TrinoODBCError ("Connection " ++ connection_id ++ " does not exist"))
  else
    let cursor_id := (connection_id ++ "_" ++ uuid4)%string in
    conn <- subscript (connections m) connection_id ;;
    cursor <- backend (conn_cursor conn) ;;
    m <- get_self ;;
    put_self {| connections := connections m;
                cursors := Dict.set cursor_id cursor (cursors m);
                connection_params := connection_params m |} ;;
    ret cursor_id.

Definition close_cursor (cursor_id : string) : M bool :=
  m <- get_self ;;
  if Dict.mem cursor_id (cursors m) then
    cursor <- subscript (cursors m) cursor_id ;;
    backend (cursor_close cursor) ;;
    m <- get_self ;;
    cs <- del_item (cursors m) cursor_id ;;
    put_self {| connections := connections m; cursors := cs;
                connection_params := connection_params m |} ;;
    ret true
  else
    ret false.

(** [if parameters: cursor.execute(query, parameters) else: cursor.execute(query)];
    [None] is the default argument, an absent parameter list. *)
Definition execute_call (query : string) (parameters : option (list pyval))
  : ExecuteCall :=
  match parameters with
  | Some ps => if truthy (VList ps) then ExecuteWithParameters query ps
               else ExecuteQueryOnly query
  | None => ExecuteQueryOnly query
  end.

(** [if cursor.description: columns = [...] else columns = []] *)
Definition columns_of (description : option (list Column)) : list Column :=
  match description with
  | Some (c :: cs) => c :: cs
  | _ => []
  end.

Definition execute_query (cursor_id : string) (query : string)
    (parameters : option (list pyval)) : M ExecuteResult :=
  m <- get_self ;;
  if negb (Dict.mem cursor_id (cursors m)) then
    raise (TrinoODBCError ("Cursor " ++ cursor_id ++ " does not exist"))
  else
    try_except
      (m <- get_self ;;
       cursor <- subscript (cursors m) cursor_id ;;
       backend (cursor_execute cursor (execute_call query parameters)) ;;
       description <- attribute (cursor_description cursor) ;;
       rowcount <- attribute (cursor_rowcount cursor) ;;
       ret {| exec_success := true;
              exec_columns := columns_of description;
              exec_rowcount := if (rowcount >=? 0)%Z then rowcount else (-1)%Z |})
      (fun e => raise (TrinoODBCError ("Query execution error: " ++ str_exn e))).

(** The rows as they are returned: dictionaries keyed by column name when
    the cursor has a description, plain lists otherwise. *)
Definition result_rows (description : option (list Column)) (rows : list (list pyval))
  : list pyval :=
  match description with
  | Some (c :: cs) =>
      let column_names := map col_name (c :: cs) in
      map (fun row => VDict (dict_of_zip column_names row)) rows
  | _ => map (fun row => VList row) rows
  end.

Definition fetch_results (cursor_id : string) (max_rows : Z) : M FetchResult :=
  m <- get_self ;;
  if negb (Dict.mem cursor_id (cursors m)) then
    raise (TrinoODBCError ("Cursor " ++ cursor_id ++ " does not exist"))
  else
    try_except
      (m <- get_self ;;
       cursor <- subscript (cursors m) cursor_id ;;
       rows <- backend (cursor_fetchmany cursor max_rows) ;;
       description <- attribute (cursor_description cursor) ;;
       let has_more := (Z.of_nat (length rows) >=? max_rows)%Z in
       ret {| fetch_success := true;
              fetch_rows := result_rows description rows;
              fetch_has_more := has_more |})
      (fun e => raise (TrinoODBCError ("Error fetching results: " ++ str_exn e))).

Definition get_connection_info (connection_id : string) : M (Dict.t pyval) :=
  m <- get_self ;;
  if negb (Dict.mem connection_id (connections m)) then
    raise (TrinoODBCError ("Connection " ++ connection_id ++ " does not exist"))
  else
    params <- subscript (connection_params m) connection_id ;;
    let info := params in                                  (* params.copy() *)
    let info := if Dict.mem "password" info
                then Dict.set "password" password_mask info
                else info in
    ret info.

End Methods.

(* ================================================================== *)
(** ** Sequences of registry operations *)

Inductive op : Type :=
| OpenConnection (uuid4 : string) (params : Dict.t pyval)
| CloseConnection (connection_id : string)
| OpenCursor (connection_id : string) (uuid4 : string)
| CloseCursor (cursor_id : string)
| ExecuteQuery (cursor_id : string) (query : string) (parameters : option (list pyval))
| FetchResults (cursor_id : string) (max_rows : Z)
| GetConnectionInfo (connection_id : string).

(** What a method hands back to its caller. *)
Inductive response : Type :=
| Handle (h : string)
| Flag (b : bool)
| Executed (r : ExecuteResult)
| Fetched (r : FetchResult)
| Info (info : Dict.t pyval).

Section Runs.
Context {B : Backend}.

Definition fmap {A C} (f : A -> C) (m : M A) : M C := x <- m ;; ret (f x).

Definition call (o : op) : M response :=
  match o with
  | OpenConnection uuid4 params => fmap Handle (create_connection uuid4 params)
  | CloseConnection h => fmap Flag (close_connection h)
  | OpenCursor h uuid4 => fmap Handle (create_cursor h uuid4)
  | CloseCursor h => fmap Flag (close_cursor h)
  | ExecuteQuery h q ps => fmap Executed (execute_query h q ps)
  | FetchResults h n => fmap Fetched (fetch_results h n)
  | GetConnectionInfo h => fmap Info (get_connection_info h)
  end.

(** The calls in order, each with what it returned or raised. *)
Fixpoint trace (ops : list op) (s : State) : list (op * result response) * State :=
  match ops with
  | [] => ([], s)
  | o :: rest =>
      let (r, s1) := call o s in
      let (t, s2) := trace rest s1 in
      ((o, r) :: t, s2)
  end.

Definition run (ops : list op) (s : State) : State := snd (trace ops s).

End Runs.




(* ================================================================== *)
(** ** Invariants of the registry *)

Section Invariants.
Context {B : Backend}.

(** No key enters [self.cursors] between [s] and [s']. *)
Definition cursors_shrink (s s' : State) : Prop :=
  forall k, Dict.mem k (cursors (self s')) = true ->
            Dict.mem k (cursors (self s)) = true.

(** [self.connections] and [self.connection_params] list the same
    handles, in the same order. *)
Definition keys_in_step (m : ConnectionManager) : Prop :=
  Dict.keys (connections m) = Dict.keys (connection_params m).

(** Every cursor handle is a live connection handle followed by ["_"] and
    a suffix, the shape [create_cursor] gives it and [close_connection]
    finds back with [startswith]. *)
Definition cursors_owned (m : ConnectionManager) : Prop :=
  forall k, Dict.mem k (cursors m) = true ->
    exists c u, k = (c ++ "_" ++ u)%string /\ Dict.mem c (connections m) = true.



(** Every cursor handle was returned by one of the openings [D] (pairs of
    a connection handle and the cursor handle opened under it), and the
    connection of that opening is still in [self.connections]. *)
Definition opened_under (D : list (string * string)) (m : ConnectionManager) : Prop :=
  forall k, Dict.mem k (cursors m) = true ->
    exists c u, In (c, k) D /\ k = (c ++ "_" ++ u)%string /\
                Dict.mem c (connections m) = true.

End Invariants.

(** The successful [OpenCursor] calls of a trace: the connection handle
    given and the cursor handle returned. *)
Fixpoint cursor_openings (t : list (op * result response)) : list (string * string) :=
  match t with
  | [] => []
  | (OpenCursor c _, Return (Handle k)) :: rest => (c, k) :: cursor_openings rest
  | _ :: rest => cursor_openings rest
  end.

(** Unfold the operations of the method monad. *)
Ltac unfold_monad :=
  unfold fmap in *;
  unfold bind, get_self, put_self, ret, raise, try_except, subscript,
    del_item, backend, attribute in *.

(** Read an equation between two outcomes as its two components. *)
Ltac inv_pair H := cbv beta in H; simpl in H; injection H as <- <-; simpl.


(** The backend's [close] calls return normally, on sessions and on
    cursors. *)
Definition closes_succeed (B : Backend) : Prop :=
  (forall (c : Cursor) (w : World), exists w', cursor_close c w = (inr tt, w')) /\
  (forall (c : Conn) (w : World), exists w', conn_close c w = (inr tt, w')).

(** The cursors [close_connection(h)] leaves: those whose handle does not
    start with [h], in their order. *)
Definition cursors_outside {V} (h : string) (d : Dict.t V) : Dict.t V :=
  filter (fun kv => negb (String.prefix h (fst kv))) d.

(* ================================================================== *)
(** ** The methods under [self.lock], several callers at once

    The request layer runs each request in a thread of its own, so the
    methods interleave.  A thread is at a program point of the method it
    is running; one step executes one statement.  [with self.lock:]
    is an acquire step, enabled only while the lock is free, and a
    release step, taken on leaving the block normally or by an exception.
    Statements inside a block are steps like any other: nothing but the
    lock keeps two threads apart. *)

Section Threads.
Context {B : Backend}.

(** Program points.  The arguments are the method's parameters and the
    local variables alive at that point. *)
Inductive pc : Type :=
| Idle
(* create_connection *)
| CreateConn_connect (connection_id : string) (params : Dict.t pyval)
| CreateConn_lock (connection_id : string) (params : Dict.t pyval) (conn : Conn)
| CreateConn_store (connection_id : string) (params : Dict.t pyval) (conn : Conn)
| CreateConn_store_params (connection_id : string) (params : Dict.t pyval)
(* close_connection *)
| CloseConn_lock (connection_id : string)
| CloseConn_test (connection_id : string)
| CloseConn_list (connection_id : string)
| CloseConn_loop (connection_id : string) (cursors_to_close : list string)
| CloseConn_del_cursor (connection_id : string) (cursor_id : string)
    (cursors_to_close : list string)
| CloseConn_close (connection_id : string)
| CloseConn_del (connection_id : string)
| CloseConn_del_params (connection_id : string)
(* create_cursor *)
| CreateCur_lock (connection_id uuid4 : string)
| CreateCur_test (connection_id uuid4 : string)
| CreateCur_cursor (connection_id uuid4 : string)
| CreateCur_store (connection_id uuid4 : string) (cursor : Cursor)
(* close_cursor *)
| CloseCur_lock (cursor_id : string)
| CloseCur_test (cursor_id : string)
| CloseCur_close (cursor_id : string)
| CloseCur_del (cursor_id : string)
(* execute_query *)
| Exec_lock (cursor_id query : string) (parameters : option (list pyval))
| Exec_test (cursor_id query : string) (parameters : option (list pyval))
| Exec_unlock (cursor_id query : string) (parameters : option (list pyval))
| Exec_lookup (cursor_id query : string) (parameters : option (list pyval))
| Exec_execute (query : string) (parameters : option (list pyval)) (cursor : Cursor)
| Exec_describe (cursor : Cursor)
| Exec_rowcount (cursor : Cursor) (columns : list Column)
(* fetch_results *)
| Fetch_lock (cursor_id : string) (max_rows : Z)
| Fetch_test (cursor_id : string) (max_rows : Z)
| Fetch_unlock (cursor_id : string) (max_rows : Z)
| Fetch_lookup (cursor_id : string) (max_rows : Z)
| Fetch_fetch (max_rows : Z) (cursor : Cursor)
| Fetch_describe (max_rows : Z) (cursor : Cursor) (rows : list (list pyval))
(* get_connection_info *)
| Info_lock (connection_id : string)
| Info_test (connection_id : string)
| Info_read (connection_id : string)
(* leaving a [with self.lock:] block with the method's outcome *)
| Unlock (r : result response)
(* the method is over *)
| Done (r : result response).

(** The first program point of a call. *)
Definition entry (o : op) : pc :=
  match o with
  | OpenConnection uuid4 params => CreateConn_connect uuid4 params
  | CloseConnection h => CloseConn_lock h
  | OpenCursor h uuid4 => CreateCur_lock h uuid4
  | CloseCursor k => CloseCur_lock k
  | ExecuteQuery k q ps => Exec_lock k q ps
  | FetchResults k n => Fetch_lock k n
  | GetConnectionInfo h => Info_lock h
  end.

(** Entering [with self.lock:]. *)
Definition acquire (p : pc) : option pc :=
  match p with
  | CreateConn_lock id params conn => Some (CreateConn_store id params conn)
  | CloseConn_lock h => Some (CloseConn_test h)
  | CreateCur_lock h u => Some (CreateCur_test h u)
  | CloseCur_lock k => Some (CloseCur_test k)
  | Exec_lock k q ps => Some (Exec_test k q ps)
  | Fetch_lock k n => Some (Fetch_test k n)
  | Info_lock h => Some (Info_test h)
  | _ => None
  end.

(** Leaving [with self.lock:]; [execute_query] and [fetch_results] go on
    with their [try] block, the other methods are over. *)
Definition release (p : pc) : option pc :=
  match p with
  | Exec_unlock k q ps => Some (Exec_lookup k q ps)
  | Fetch_unlock k n => Some (Fetch_lookup k n)
  | Unlock r => Some (Done r)
  | _ => None
  end.

(** The program points inside a [with self.lock:] block. *)
Definition in_critical (p : pc) : bool :=
  match p with
  | CreateConn_store _ _ _ | CreateConn_store_params _ _
  | CloseConn_test _ | CloseConn_list _ | CloseConn_loop _ _
  | CloseConn_del_cursor _ _ _ | CloseConn_close _ | CloseConn_del _
  | CloseConn_del_params _
  | CreateCur_test _ _ | CreateCur_cursor _ _ | CreateCur_store _ _ _
  | CloseCur_test _ | CloseCur_close _ | CloseCur_del _
  | Exec_test _ _ _ | Exec_unlock _ _ _
  | Fetch_test _ _ | Fetch_unlock _ _
  | Info_test _ | Info_read _
  | Unlock _ => true
  | _ => false
  end.

Definition with_world (s : State) (w : World) : State :=
  {| self := self s; world := w |}.

Definition with_connections (s : State) (d : Dict.t Conn) : State :=
  {| self := {| connections := d; cursors := cursors (self s);
                connection_params := connection_params (self s) |};
     world := world s |}.

Definition with_cursors (s : State) (d : Dict.t Cursor) : State :=
  {| self := {| connections := connections (self s); cursors := d;
                connection_params := connection_params (self s) |};
     world := world s |}.

Definition with_connection_params (s : State) (d : Dict.t (Dict.t pyval)) : State :=
  {| self := {| connections := connections (self s); cursors := cursors (self s);
                connection_params := d |};
     world := world s |}.

(** One statement that is neither an acquire nor a release. *)
Definition local (p : pc) (s : State) : option (pc * State) :=
  match p with
  (* create_connection *)
  | CreateConn_connect id params =>
      match trino_connect (connect_args params (basic_auth params)) (world s) with
      | (inr conn, w') => Some (CreateConn_lock id params conn, with_world s w')
      | (inl msg, w') =>
          Some (Done (Raise (TrinoODBCError ("Failed to connect to Trino: " ++ msg))),
                with_world s w')
      end
  | CreateConn_store id params conn =>
      Some (CreateConn_store_params id params,
            with_connections s (Dict.set id conn (connections (self s))))
  | CreateConn_store_params id params =>
      Some (Unlock (Return (Handle id)),
            with_connection_params s (Dict.set id params (connection_params (self s))))
  (* close_connection *)
  | CloseConn_test h =>
      if Dict.mem h (connections (self s))
      then Some (CloseConn_list h, s)
      else Some (Unlock (Return (Flag false)), s)
  | CloseConn_list h =>
      Some (CloseConn_loop h
              (filter (fun cursor_id => String.prefix h cursor_id)
                      (Dict.keys (cursors (self s)))), s)
  | CloseConn_loop h [] => Some (CloseConn_close h, s)
  | CloseConn_loop h (k :: rest) =>
      match Dict.get k (cursors (self s)) with
      | None => Some (Unlock (Raise (KeyError k)), s)
      | Some cursor =>
          match cursor_close cursor (world s) with
          | (inr _, w') => Some (CloseConn_del_cursor h k rest, with_world s w')
          | (inl msg, w') => Some (Unlock (Raise (BackendError msg)), with_world s w')
          end
      end
  | CloseConn_del_cursor h k rest =>
      if Dict.mem k (cursors (self s))
      then Some (CloseConn_loop h rest, with_cursors s (Dict.del k (cursors (self s))))
      else Some (Unlock (Raise (KeyError k)), s)
  | CloseConn_close h =>
      match Dict.get h (connections (self s)) with
      | None => Some (Unlock (Raise (KeyError h)), s)
      | Some conn =>
          match conn_close conn (world s) with
          | (inr _, w') => Some (CloseConn_del h, with_world s w')
          | (inl msg, w') => Some (Unlock (Raise (BackendError msg)), with_world s w')
          end
      end
  | CloseConn_del h =>
      if Dict.mem h (connections (self s))
      then Some (CloseConn_del_params h,
                 with_connections s (Dict.del h (connections (self s))))
      else Some (Unlock (Raise (KeyError h)), s)
  | CloseConn_del_params h =>
      if Dict.mem h (connection_params (self s))
      then Some (Unlock (Return (Flag true)),
                 with_connection_params s (Dict.del h (connection_params (self s))))
      else Some (Unlock (Raise (KeyError h)), s)
  (* create_cursor *)
  | CreateCur_test h u =>
      if negb (Dict.mem h (connections (self s)))
      then Some (Unlock (Raise (TrinoODBCError ("Connection " ++ h ++ " does not exist"))), s)
      else Some (CreateCur_cursor h u, s)
  | CreateCur_cursor h u =>
      match Dict.get h (connections (self s)) with
      | None => Some (Unlock (Raise (KeyError h)), s)
      | Some conn =>
          match conn_cursor conn (world s) with
          | (inr cursor, w') => Some (CreateCur_store h u cursor, with_world s w')
          | (inl msg, w') => Some (Unlock (Raise (BackendError msg)), with_world s w')
          end
      end
  | CreateCur_store h u cursor =>
      let cursor_id := (h ++ "_" ++ u)%string in
      Some (Unlock (Return (Handle cursor_id)),
            with_cursors s (Dict.set cursor_id cursor (cursors (self s))))
  (* close_cursor *)
  | CloseCur_test k =>
      if Dict.mem k (cursors (self s))
      then Some (CloseCur_close k, s)
      else Some (Unlock (Return (Flag false)), s)
  | CloseCur_close k =>
      match Dict.get k (cursors (self s)) with
      | None => Some (Unlock (Raise (KeyError k)), s)
      | Some cursor =>
          match cursor_close cursor (world s) with
          | (inr _, w') => Some (CloseCur_del k, with_world s w')
          | (inl msg, w') => Some (Unlock (Raise (BackendError msg)), with_world s w')
          end
      end
  | CloseCur_del k =>
      if Dict.mem k (cursors (self s))
      then Some (Unlock (Return (Flag true)),
                 with_cursors s (Dict.del k (cursors (self s))))
      else Some (Unlock (Raise (KeyError k)), s)
  (* execute_query *)
  | Exec_test k q ps =>
      if negb (Dict.mem k (cursors (self s)))
      then Some (Unlock (Raise (TrinoODBCError ("Cursor " ++ k ++ " does not exist"))), s)
      else Some (Exec_unlock k q ps, s)
  | Exec_lookup k q ps =>
      match Dict.get k (cursors (self s)) with
      | None =>
          Some (Done (Raise (TrinoODBCError
                  ("Query execution error: " ++ str_exn (KeyError k)))), s)
      | Some cursor => Some (Exec_execute q ps cursor, s)
      end
  | Exec_execute q ps cursor =>
      match cursor_execute cursor (execute_call q ps) (world s) with
      | (inr _, w') => Some (Exec_describe cursor, with_world s w')
      | (inl msg, w') =>
          Some (Done (Raise (TrinoODBCError ("Query execution error: " ++ msg))),
                with_world s w')
      end
  | Exec_describe cursor =>
      Some (Exec_rowcount cursor (columns_of (cursor_description cursor (world s))), s)
  | Exec_rowcount cursor columns =>
      let rowcount := cursor_rowcount cursor (world s) in
      Some (Done (Return (Executed
              {| exec_success := true; exec_columns := columns;
                 exec_rowcount := if (rowcount >=? 0)%Z then rowcount else (-1)%Z |})), s)
  (* fetch_results *)
  | Fetch_test k n =>
      if negb (Dict.mem k (cursors (self s)))
      then Some (Unlock (Raise (TrinoODBCError ("Cursor " ++ k ++ " does not exist"))), s)
      else Some (Fetch_unlock k n, s)
  | Fetch_lookup k n =>
      match Dict.get k (cursors (self s)) with
      | None =>
          Some (Done (Raise (TrinoODBCError
                  ("Error fetching results: " ++ str_exn (KeyError k)))), s)
      | Some cursor => Some (Fetch_fetch n cursor, s)
      end
  | Fetch_fetch n cursor =>
      match cursor_fetchmany cursor n (world s) with
      | (inr rows, w') => Some (Fetch_describe n cursor rows, with_world s w')
      | (inl msg, w') =>
          Some (Done (Raise (TrinoODBCError ("Error fetching results: " ++ msg))),
                with_world s w')
      end
  | Fetch_describe n cursor rows =>
      Some (Done (Return (Fetched
              {| fetch_success := true;
                 fetch_rows := result_rows (cursor_description cursor (world s)) rows;
                 fetch_has_more := (Z.of_nat (length rows) >=? n)%Z |})), s)
  (* get_connection_info *)
  | Info_test h =>
      if negb (Dict.mem h (connections (self s)))
      then Some (Unlock (Raise (TrinoODBCError ("Connection " ++ h ++ " does not exist"))), s)
      else Some (Info_read h, s)
  | Info_read h =>
      match Dict.get h (connection_params (self s)) with
      | None => Some (Unlock (Raise (KeyError h)), s)
      | Some params =>
          Some (Unlock (Return (Info (if Dict.mem "password" params
                                      then Dict.set "password" password_mask params
                                      else params))), s)
      end
  | _ => None
  end.

(** The registry, the lock ([Some t]: taken, by thread [t]) and the
    program point of every thread. *)
Record config : Type := {
  shared : State;
  lock : option nat;
  threads : nat -> pc
}.

Definition set_thread (ths : nat -> pc) (t : nat) (p : pc) : nat -> pc :=
  fun t' => if Nat.eqb t' t then p else ths t'.

Definition initial (w : World) : config :=
  {| shared := init w; lock := None; threads := fun _ => Idle |}.

(** One step of thread [t]. *)
Inductive step (t : nat) (c : config) : config -> Prop :=
| step_call (o : op) :
    threads c t = Idle ->
    step t c {| shared := shared c; lock := lock c;
                threads := set_thread (threads c) t (entry o) |}
| step_acquire (p' : pc) :
    acquire (threads c t) = Some p' ->
    lock c = None ->
    step t c {| shared := shared c; lock := Some t;
                threads := set_thread (threads c) t p' |}
| step_release (p' : pc) :
    release (threads c t) = Some p' ->
    step t c {| shared := shared c; lock := None;
                threads := set_thread (threads c) t p' |}
| step_local (p' : pc) (s' : State) :
    local (threads c t) (shared c) = Some (p', s') ->
    step t c {| shared := s'; lock := lock c;
                threads := set_thread (threads c) t p' |}
| step_return (r : result response) :
    threads c t = Done r ->
    step t c {| shared := shared c; lock := lock c;
                threads := set_thread (threads c) t Idle |}.

(** The configurations some interleaving reaches from the empty registry. *)
Inductive reachable (w : World) : config -> Prop :=
| reachable_initial : reachable w (initial w)
| reachable_step (c c' : config) (t : nat) :
    reachable w c -> step t c c' -> reachable w c'.

(** Thread [t] is inside the locked block of [close_connection(h)]. *)
Definition closing (h : string) (p : pc) : bool :=
  match p with
  | CloseConn_test h' | CloseConn_list h' | CloseConn_loop h' _
  | CloseConn_del_cursor h' _ _ | CloseConn_close h' | CloseConn_del h'
  | CloseConn_del_params h' => String.eqb h h'
  | _ => false
  end.

(** Thread [t] is inside the locked block of [create_cursor]. *)
Definition creating_cursor (p : pc) : bool :=
  match p with
  | CreateCur_test _ _ | CreateCur_cursor _ _ | CreateCur_store _ _ _ => true
  | _ => false
  end.

(** What a thread at program point [p] may rely on about the
    dictionaries [m]: the cascade of [close_connection] has every cursor
    of its connection either behind it or still on its list, and
    [create_cursor] past its test has a live connection. *)
Definition point_inv (m : ConnectionManager) (p : pc) : Prop :=
  match p with
  | CloseConn_loop h todo =>
      forall k, String.prefix h k = true -> Dict.mem k (cursors m) = true -> In k todo
  | CloseConn_del_cursor h k0 todo =>
      forall k, String.prefix h k = true -> Dict.mem k (cursors m) = true ->
                k = k0 \/ In k todo
  | CloseConn_close h | CloseConn_del h =>
      forall k, String.prefix h k = true -> Dict.mem k (cursors m) = false
  | CloseConn_del_params h =>
      Dict.mem h (connections m) = false /\
      forall k, String.prefix h k = true -> Dict.mem k (cursors m) = false
  | CreateCur_cursor h _ | CreateCur_store h _ _ =>
      Dict.mem h (connections m) = true
  | _ => True
  end.

(** Only the holder of the lock is inside a locked block. *)
Definition lock_inv (c : config) : Prop :=
  forall t, in_critical (threads c t) = true -> lock c = Some t.

Definition config_inv (c : config) : Prop :=
  lock_inv c /\
  cursors_owned (self (shared c)) /\
  forall t, point_inv (self (shared c)) (threads c t).

(** A thread running on without interference: from program point [p] in
    state [s] it comes to [q] in [s']. *)
Inductive solo : pc -> State -> pc -> State -> Prop :=
| solo_here (p : pc) (s : State) : solo p s p s
| solo_acquire (p p1 q : pc) (s s' : State) :
    acquire p = Some p1 -> solo p1 s q s' -> solo p s q s'
| solo_release (p p1 q : pc) (s s' : State) :
    release p = Some p1 -> solo p1 s q s' -> solo p s q s'
| solo_local (p p1 q : pc) (s s1 s' : State) :
    local p s = Some (p1, s1) -> solo p1 s1 q s' -> solo p s q s'.

(** Several steps of thread [t] in a row. *)
Inductive steps (t : nat) : config -> config -> Prop :=
| steps_none (c : config) : steps t c c
| steps_more (c c1 c' : config) : step t c c1 -> steps t c1 c' -> steps t c c'.

(** A schedule: which thread moves, and which call an idle thread starts. *)
Inductive move : Type :=
| Start (t : nat) (o : op)
| Go (t : nat).

(** The outcome a thread is about to return. *)
Definition finished (p : pc) : option (result response) :=
  match p with
  | Done r => Some r
  | _ => None
  end.

(** The step of a schedule's move, when it is enabled. *)
Definition exec (m : move) (c : config) : option config :=
  match m with
  | Start t o =>
      match threads c t with
      | Idle => Some {| shared := shared c; lock := lock c;
                        threads := set_thread (threads c) t (entry o) |}
      | _ => None
      end
  | Go t =>
      let p := threads c t in
      match finished p, acquire p, release p, local p (shared c) with
      | Some _, _, _, _ =>
          Some {| shared := shared c; lock := lock c;
                  threads := set_thread (threads c) t Idle |}
      | None, Some p', _, _ =>
          match lock c with
          | None => Some {| shared := shared c; lock := Some t;
                            threads := set_thread (threads c) t p' |}
          | Some _ => None
          end
      | None, None, Some p', _ =>
          Some {| shared := shared c; lock := None;
                  threads := set_thread (threads c) t p' |}
      | None, None, None, Some (p', s') =>
          Some {| shared := s'; lock := lock c;
                  threads := set_thread (threads c) t p' |}
      | None, None, None, None => None
      end
  end.

Fixpoint exec_all (ms : list move) (c : config) : option config :=
  match ms with
  | [] => Some c
  | m :: rest =>
      match exec m c with
      | Some c' => exec_all rest c'
      | None => None
      end
  end.

End Threads.

Section ThreadInvariants.
Context {B : Backend}.

(** What the keys of [self.connections] and [self.connection_params] are
    to each other at a program point inside a locked block: equal, except
    between the two assignments of [create_connection] and between the
    two [del] of [close_connection]; past a passed membership test the
    handle is in [self.connections]. *)
Definition params_point (m : ConnectionManager) (p : pc) : Prop :=
  let K := Dict.keys (connections m) in
  let P := Dict.keys (connection_params m) in
  match p with
  | CreateConn_store_params id _ =>
      K = (if Dict.mem id (connection_params m) then P else P ++ [id])
  | CloseConn_del_params h =>
      Dict.mem h (connection_params m) = true /\
      K = filter (fun k => negb (String.eqb h k)) P
  | CloseConn_list h | CloseConn_loop h _ | CloseConn_del_cursor h _ _
  | CloseConn_close h | CloseConn_del h | Info_read h =>
      K = P /\ Dict.mem h (connections m) = true
  | _ => K = P
  end.

Definition params_inv (c : config) : Prop :=
  (lock c = None -> keys_in_step (self (shared c))) /\
  forall t, in_critical (threads c t) = true ->
            params_point (self (shared c)) (threads c t).

(** The lock is taken only by a thread that is inside a locked block. *)
Definition holder_inv (c : config) : Prop :=
  forall t, lock c = Some t -> in_critical (threads c t) = true.

End ThreadInvariants.

(** Proof steps for the threaded model. *)

(** Split on every test and backend answer in hypothesis [H], an equation
    on the outcome of a statement. *)
Ltac local_cases H :=
  repeat match type of H with
         | context [match ?x with _ => _ end] => destruct x eqn:?; simpl in H
         | context [if ?x then _ else _] => destruct x eqn:?; simpl in H
         end;
  try discriminate H; try (injection H as <- <-); simpl.

Ltac rewrite_known :=
  repeat match goal with H : _ = _ |- _ => rewrite H end.

(** Run a thread along its statements as far as they compute. *)
Ltac solo_run :=
  repeat first
    [ apply solo_here
    | eapply solo_acquire; [reflexivity|]
    | eapply solo_release; [reflexivity|]
    | eapply solo_local; [simpl; rewrite_known; simpl; reflexivity|]; simpl ].

(* ================================================================== *)
(** ** A scripted backend

    A stand-in for trino.dbapi on which the methods can be run: object
    references are counters, every call to [execute] is logged, the host
    "unreachable" refuses connections, the statement "SELECT boom" is
    rejected, and [fetchmany] pages through a fixed result set. *)

Module Fake.

Record world : Type := {
  next_ref : nat;
  executed : list (nat * ExecuteCall);
  result_set : list (list pyval);
  described : option (list Column)
}.

Definition fresh_ref (w : world) : world :=
  {| next_ref := S (next_ref w); executed := executed w;
     result_set := result_set w; described := described w |}.

Definition connect (args : ConnectArgs) (w : world) : (string + nat) * world :=
  match host args with
  | VStr h => if String.eqb h "unreachable"
              then (inl "connection refused", w)
              else (inr (next_ref w), fresh_ref w)
  | _ => (inr (next_ref w), fresh_ref w)
  end.

Definition new_cursor (conn : nat) (w : world) : (string + nat) * world :=
  (inr (next_ref w), fresh_ref w).

Definition close (ref : nat) (w : world) : (string + unit) * world := (inr tt, w).

Definition query_of (c : ExecuteCall) : string :=
  match c with
  | ExecuteQueryOnly q => q
  | ExecuteWithParameters q _ => q
  end.

Definition execute (cur : nat) (c : ExecuteCall) (w : world) : (string + unit) * world :=
  if String.eqb (query_of c) "SELECT boom"
  then (inl "syntax error", w)
  else (inr tt, {| next_ref := next_ref w; executed := executed w ++ [(cur, c)];
                   result_set := result_set w; described := described w |}).

Definition fetchmany (cur : nat) (size : Z) (w : world)
  : (string + list (list pyval)) * world :=
  let n := Z.to_nat size in
  (inr (firstn n (result_set w)),
   {| next_ref := next_ref w; executed := executed w;
      result_set := skipn n (result_set w); described := described w |}).

#[export] Instance backend : Backend := {
  World := world;
  Conn := nat;
  Cursor := nat;
  trino_connect := connect;
  conn_cursor := new_cursor;
  conn_close := close;
  cursor_close := close;
  cursor_execute := execute;
  cursor_fetchmany := fetchmany;
  cursor_description := fun _ w => described w;
  cursor_rowcount := fun _ _ => (-1)%Z
}.

Definition w0 : world :=
  {| next_ref := 0; executed := [];
     result_set := [[VInt 1]; [VInt 2]; [VInt 3]]; described := None |}.

(** The parameters of the spec's scenario. *)
Definition alice : Dict.t pyval :=
  [("host", VStr "db1"); ("port", VInt 8080); ("user", VStr "alice");
   ("password", VStr "secret")].

(** The same, with a password that is itself three asterisks. *)
Definition starred : Dict.t pyval :=
  [("host", VStr "db1"); ("port", VInt 8080); ("user", VStr "alice");
   ("password", VStr "***")].

(** Parameters naming the host that refuses connections. *)
Definition lost : Dict.t pyval :=
  [("host", VStr "unreachable"); ("user", VStr "alice")].

Definition uuid_a : string := "6f1c2a9e-3b7d-4c5e-8f90-1a2b3c4d5e6f".
Definition uuid_b : string := "0d9e8c7b-6a5f-4e3d-9c2b-1a0f9e8d7c6b".
Definition uuid_c : string := "a1b2c3d4-e5f6-4a7b-8c9d-0e1f2a3b4c5d".

(** One connection opened for [alice] and one cursor under it. *)
Definition s1 : State :=
  run [OpenConnection uuid_a alice; OpenCursor uuid_a uuid_b] (init w0).


(** One connection opened with the parameters [starred]. *)
Definition s_starred : State := run [OpenConnection uuid_a starred] (init w0).

(** The handle of the cursor of [s1]. *)
Definition cursor_1 : string := (uuid_a ++ "_" ++ uuid_b)%string.

(** A schedule of two threads: thread 0 opens a connection and a cursor
    under it, then asks for a second cursor while thread 1 closes the
    connection; it stops with thread 1 in the middle of the cascade and
    thread 0 waiting for the lock. *)
Definition schedule : list move :=
  [Start 0 (OpenConnection uuid_a alice); Go 0; Go 0; Go 0; Go 0; Go 0; Go 0;
   Start 0 (OpenCursor uuid_a uuid_b); Go 0; Go 0; Go 0; Go 0; Go 0; Go 0;
   Start 1 (CloseConnection uuid_a);
   Start 0 (OpenCursor uuid_a uuid_c);
   Go 1; Go 1; Go 1].

Definition mid_close : config :=
  match exec_all schedule (initial w0) with
  | Some c => c
  | None => initial w0
  end.

End Fake.

(* ================================================================== *)
(** ** The request layer (the Flask routes)

    Each route calls one method of the module-level [connection_manager]
    inside [try: ... except Exception as e:], answers the method's result
    through [jsonify] and any exception with the error envelope and
    status 400.  A response is its status and the dictionary handed to
    [jsonify].  The inputs are what Flask hands to the route: the path
    argument, the JSON object of the body ([request.json]) and the query
    argument [max_rows] after its [type=int] conversion. *)

Definition VERSION : string := "1.0.0".
Definition DRIVER_NAME : string := "Trino ODBC Driver for Alpine Linux".

Record HttpResponse : Type := {
  status : Z;
  body : Dict.t pyval
}.

(** [jsonify(...)], status 200 *)
Definition ok_response (d : Dict.t pyval) : HttpResponse :=
  {| status := 200; body := d |}.

(** [jsonify({"success": False, "error": ...}), 400] *)
Definition error_response (msg : string) : HttpResponse :=
  {| status := 400; body := [("success", VBool false); ("error", VStr msg)] |}.

(** One column of the "columns" list [execute_query] returns. *)
Definition column_dict (c : Column) : pyval :=
  VDict [("name", VStr (col_name c));
         ("type_code", col_type_code c);
         ("display_size", col_display_size c);
         ("internal_size", col_internal_size c);
         ("precision", col_precision c);
         ("scale", col_scale c);
         ("null_ok", col_null_ok c)].

(** The dictionary [execute_query] returns. *)
Definition execute_dict (r : ExecuteResult) : Dict.t pyval :=
  [("success", VBool (exec_success r));
   ("columns", VList (map column_dict (exec_columns r)));
   ("rowcount", VInt (exec_rowcount r))].

(** The dictionary [fetch_results] returns. *)
Definition fetch_dict (r : FetchResult) : Dict.t pyval :=
  [("success", VBool (fetch_success r));
   ("rows", VList (fetch_rows r));
   ("has_more", VBool (fetch_has_more r))].

(** The routes carry the names of the methods they call; inside [Api]
    each definition still sees the method of [ConnectionManager] under
    that name on its right-hand side. *)
Module Api.
Section Routes.
Context {B : Backend}.

Definition Route : Type := State -> HttpResponse * State.

(** [try: x = method(...); return jsonify(ok(x))
     except Exception as e: return jsonify({"success": False, "error": str(e)}), 400] *)
Definition answer {A} (method : M A) (ok : A -> Dict.t pyval) : Route :=
  fun s => match method s with
           | (Return a, s') => (ok_response (ok a), s')
           | (Raise e, s') => (error_response (str_exn e), s')
           end.

(** GET /status *)
Definition status_route : Route :=
  fun s => (ok_response [("status", VStr "ok"); ("version", VStr VERSION);
                         ("name", VStr DRIVER_NAME)], s).

(** POST /connections; [params] is the JSON object of the body. *)
Definition create_connection (uuid4 : string) (params : Dict.t pyval) : Route :=
  answer (create_connection uuid4 params)
         (fun connection_id => [("success", VBool true);
                                ("connection_id", VStr connection_id)]).

(** DELETE /connections/<connection_id> *)
Definition close_connection (connection_id : string) : Route :=
  answer (close_connection connection_id)
         (fun success => [("success", VBool success)]).

(** POST /connections/<connection_id>/cursors *)
Definition create_cursor (connection_id uuid4 : string) : Route :=
  answer (create_cursor connection_id uuid4)
         (fun cursor_id => [("success", VBool true); ("cursor_id", VStr cursor_id)]).

(** DELETE /cursors/<cursor_id> *)
Definition close_cursor (cursor_id : string) : Route :=
  answer (close_cursor cursor_id)
         (fun success => [("success", VBool success)]).

(** POST /cursors/<cursor_id>/execute; [query] is [data.get('query')] for
    a body whose "query" is a string, null or missing, [parameters] is
    [data.get('parameters')] for one whose "parameters" is a list, null
    or missing.  [if not query:] sends back the error before the manager
    is called. *)
Definition execute_query (cursor_id : string) (query : option string)
    (parameters : option (list pyval)) : Route :=
  match query with
  | Some q =>
      if negb (truthy (VStr q))
      then fun s => (error_response "Query is required", s)
      else answer (execute_query cursor_id q parameters) execute_dict
  | None => fun s => (error_response "Query is required", s)
  end.

(** GET /cursors/<cursor_id>/fetch; [max_rows] is the query argument as an
    integer, [None] when it is missing or not an integer, and then
    [request.args.get('max_rows', 1000, type=int)] is 1000. *)
Definition fetch_results (cursor_id : string) (max_rows : option Z) : Route :=
  let max_rows := match max_rows with Some n => n | None => 1000%Z end in
  answer (fetch_results cursor_id max_rows) fetch_dict.

(** GET /connections/<connection_id>/info *)
Definition get_connection_info (connection_id : string) : Route :=
  answer (get_connection_info connection_id)
         (fun info => [("success", VBool true); ("info", VDict info)]).

End Routes.
End Api.

(** A request as the routes see it. *)
Inductive request : Type :=
| GetStatus
| PostConnection (uuid4 : string) (params : Dict.t pyval)
| DeleteConnection (connection_id : string)
| PostCursor (connection_id uuid4 : string)
| DeleteCursor (cursor_id : string)
| PostExecute (cursor_id : string) (query : option string)
    (parameters : option (list pyval))
| GetFetch (cursor_id : string) (max_rows : option Z)
| GetInfo (connection_id : string).

Section Serving.
Context {B : Backend}.

Definition handle (r : request) : Api.Route :=
  match r with
  | GetStatus => Api.status_route
  | PostConnection uuid4 params => Api.create_connection uuid4 params
  | DeleteConnection h => Api.close_connection h
  | PostCursor h uuid4 => Api.create_cursor h uuid4
  | DeleteCursor k => Api.close_cursor k
  | PostExecute k q ps => Api.execute_query k q ps
  | GetFetch k n => Api.fetch_results k n
  | GetInfo h => Api.get_connection_info h
  end.

(** Requests served one after the other. *)
Fixpoint serve (rs : list request) (s : State) : list HttpResponse * State :=
  match rs with
  | [] => ([], s)
  | r :: rest =>
      let (resp, s1) := handle r s in
      let (resps, s2) := serve rest s1 in
      (resp :: resps, s2)
  end.

(** The method call a request leads to, if it gets that far. *)
Definition op_of (r : request) : option op :=
  match r with
  | GetStatus => None
  | PostConnection uuid4 params => Some (OpenConnection uuid4 params)
  | DeleteConnection h => Some (CloseConnection h)
  | PostCursor h uuid4 => Some (OpenCursor h uuid4)
  | DeleteCursor k => Some (CloseCursor k)
  | PostExecute k (Some q) ps =>
      if negb (truthy (VStr q)) then None else Some (ExecuteQuery k q ps)
  | PostExecute k None ps => None
  | GetFetch k n => Some (FetchResults k (match n with Some n => n | None => 1000%Z end))
  | GetInfo h => Some (GetConnectionInfo h)
  end.

Fixpoint ops_of (rs : list request) : list op :=
  match rs with
  | [] => []
  | r :: rest => match op_of r with
                 | Some o => o :: ops_of rest
                 | None => ops_of rest
                 end
  end.

End Serving.

(** More runs of the scripted backend. *)
Module Scenario.

(** Thread 0 opens a connection and a cursor, then starts
    [execute_query] on the cursor and gets as far as leaving the locked
    block of its existence check; thread 1 has not moved. *)
Definition schedule : list move :=
  [Start 0 (OpenConnection Fake.uuid_a Fake.alice); Go 0; Go 0; Go 0; Go 0; Go 0; Go 0;
   Start 0 (OpenCursor Fake.uuid_a Fake.uuid_b); Go 0; Go 0; Go 0; Go 0; Go 0; Go 0;
   Start 0 (ExecuteQuery Fake.cursor_1 "SELECT 1" None); Go 0; Go 0; Go 0].

Definition checked : config :=
  match exec_all schedule (initial (B := Fake.backend) Fake.w0) with
  | Some c => c
  | None => initial (B := Fake.backend) Fake.w0
  end.

(** Two connections, a cursor under each. *)
Definition two_connections : list op :=
  [OpenConnection Fake.uuid_a Fake.alice; OpenConnection Fake.uuid_c Fake.alice;
   OpenCursor Fake.uuid_a Fake.uuid_b; OpenCursor Fake.uuid_c Fake.uuid_b].

Definition s2 : State := run two_connections (init (B := Fake.backend) Fake.w0).

(** A cursor with a described result set of two columns. *)
Definition described_world : Fake.world :=
  {| Fake.next_ref := 0; Fake.executed := [];
     Fake.result_set := [[VInt 1; VStr "a"]; [VInt 2; VStr "b"]];
     Fake.described :=
       Some [ {| col_name := "id"; col_type_code := VStr "integer";
                 col_display_size := VNone; col_internal_size := VNone;
                 col_precision := VNone; col_scale := VNone; col_null_ok := VNone |};
              {| col_name := "name"; col_type_code := VStr "varchar";
                 col_display_size := VNone; col_internal_size := VNone;
                 col_precision := VNone; col_scale := VNone; col_null_ok := VNone |} ] |}.

Definition s_described : State :=
  run [OpenConnection Fake.uuid_a Fake.alice; OpenCursor Fake.uuid_a Fake.uuid_b]
      (init (B := Fake.backend) described_world).

(** Requests of one client session, one of them without a query. *)
Definition session : list request :=
  [PostConnection Fake.uuid_a Fake.alice; PostCursor Fake.uuid_a Fake.uuid_b;
   PostExecute Fake.cursor_1 None None;
   PostExecute Fake.cursor_1 (Some "SELECT 1") None;
   GetFetch Fake.cursor_1 None; GetStatus; DeleteConnection Fake.uuid_a].


End Scenario.

(* ================================================================== *)
(** * Properties *)

(** ** Dictionaries *)

Module DictFacts.
Section Facts.
Variable V : Type.
Implicit Types (d : Dict.t V) (k : string) (v : V).

Lemma get_set_eq k v d : Dict.get k (Dict.set k v d) = Some v.
Proof.
  induction d as [|[k' v'] d IH]; simpl.
  - now rewrite String.eqb_refl.
  - destruct (String.eqb k k') eqn:E; simpl; rewrite E; auto.
Qed.

Lemma get_set_neq k k' v d :
  k <> k' -> Dict.get k' (Dict.set k v d) = Dict.get k' d.
Proof.
  intros Hne. induction d as [|[k0 v0] d IH]; simpl.
  - destruct (String.eqb k' k) eqn:E; auto.
    apply String.eqb_eq in E. congruence.
  - destruct (String.eqb k k0) eqn:E; simpl.
    + apply String.eqb_eq in E. subst k0.
      destruct (String.eqb k' k) eqn:E'; auto.
      apply String.eqb_eq in E'. congruence.
    + now rewrite IH.
Qed.

Lemma mem_set_eq k v d : Dict.mem k (Dict.set k v d) = true.
Proof. unfold Dict.mem. now rewrite get_set_eq. Qed.

Lemma mem_set_neq k k' v d :
  k <> k' -> Dict.mem k' (Dict.set k v d) = Dict.mem k' d.
Proof. intros. unfold Dict.mem. now rewrite get_set_neq. Qed.

Lemma mem_set_mono k k' v d :
  Dict.mem k' d = true -> Dict.mem k' (Dict.set k v d) = true.
Proof.
  intros H. destruct (string_dec k k') as [->|Hne].
  - apply mem_set_eq.
  - now rewrite mem_set_neq.
Qed.

Lemma get_del_eq k d : Dict.get k (Dict.del k d) = None.
Proof.
  induction d as [|[k' v'] d IH]; simpl; auto.
  destruct (String.eqb k k') eqn:E; simpl; auto. now rewrite E.
Qed.

Lemma get_del_neq k k' d :
  k <> k' -> Dict.get k' (Dict.del k d) = Dict.get k' d.
Proof.
  intros Hne. induction d as [|[k0 v0] d IH]; simpl; auto.
  destruct (String.eqb k k0) eqn:E; simpl.
  - apply String.eqb_eq in E. subst k0.
    destruct (String.eqb k' k) eqn:E'; auto.
    apply String.eqb_eq in E'. congruence.
  - now rewrite IH.
Qed.

Lemma mem_del_eq k d : Dict.mem k (Dict.del k d) = false.
Proof. unfold Dict.mem. now rewrite get_del_eq. Qed.

Lemma mem_del_neq k k' d :
  k <> k' -> Dict.mem k' (Dict.del k d) = Dict.mem k' d.
Proof. intros. unfold Dict.mem. now rewrite get_del_neq. Qed.

Lemma mem_del_true k k' d :
  Dict.mem k' (Dict.del k d) = true -> k <> k' /\ Dict.mem k' d = true.
Proof.
  intros H. destruct (string_dec k k') as [->|Hne].
  - now rewrite mem_del_eq in H.
  - split; auto. now rewrite mem_del_neq in H.
Qed.

Lemma mem_keys k d : Dict.mem k d = true <-> In k (Dict.keys d).
Proof.
  unfold Dict.mem, Dict.keys.
  induction d as [|[k' v'] d IH]; simpl.
  - split; [discriminate | tauto].
  - destruct (String.eqb k k') eqn:E.
    + apply String.eqb_eq in E. subst. tauto.
    + apply String.eqb_neq in E. rewrite IH. split; [tauto|].
      intros [H|H]; [congruence | exact H].
Qed.

Lemma mem_false_keys k d : Dict.mem k d = false <-> ~ In k (Dict.keys d).
Proof.
  rewrite <- mem_keys. destruct (Dict.mem k d); split; congruence.
Qed.

(** The keys after an assignment depend on the keys before only. *)
Lemma keys_set k v d :
  Dict.keys (Dict.set k v d) =
  if Dict.mem k d then Dict.keys d else Dict.keys d ++ [k].
Proof.
  unfold Dict.mem, Dict.keys.
  induction d as [|[k' v'] d IH]; simpl; auto.
  destruct (String.eqb k k') eqn:E; simpl; auto.
  rewrite IH. now destruct (Dict.get k d).
Qed.

Lemma keys_del k d :
  Dict.keys (Dict.del k d) =
  filter (fun k' => negb (String.eqb k k')) (Dict.keys d).
Proof.
  unfold Dict.del, Dict.keys.
  induction d as [|[k' v'] d IH]; simpl; auto.
  destruct (String.eqb k k'); simpl; now rewrite IH.
Qed.

Lemma get_some_mem k d v : Dict.get k d = Some v -> Dict.mem k d = true.
Proof. unfold Dict.mem. now intros ->. Qed.

Lemma mem_get k d : Dict.mem k d = true -> exists v, Dict.get k d = Some v.
Proof. unfold Dict.mem. destruct (Dict.get k d); [eauto | discriminate]. Qed.
End Facts.

(** Membership depends on the keys only, whatever the values are. *)
Lemma mem_same_keys (V W : Type) (d : Dict.t V) (e : Dict.t W) (k : string) :
  Dict.keys d = Dict.keys e -> Dict.mem k d = Dict.mem k e.
Proof.
  intros H. destruct (Dict.mem k e) eqn:E.
  - apply mem_keys. rewrite H. now apply mem_keys.
  - apply mem_false_keys. rewrite H. now apply mem_false_keys.
Qed.
End DictFacts.

(** ** Strings *)

Lemma prefix_append (a b : string) : String.prefix a (a ++ b) = true.
Proof.
  induction a as [|c a IH]; simpl.
  - now destruct b.
  - destruct (ascii_dec c c); [exact IH | congruence].
Qed.



Lemma is_uuid_str_length (s : string) :
  is_uuid_str s = true -> String.length s = 36.
Proof.
  unfold is_uuid_str. intros H. apply andb_true_iff in H as [H _].
  now apply Nat.eqb_eq.
Qed.

(** ** The methods, one call at a time *)

Section MethodFacts.
Context {B : Backend}.

Lemma state_eta (s : State) : {| self := self s; world := world s |} = s.
Proof. now destruct s. Qed.

Lemma manager_eta (m : ConnectionManager) :
  {| connections := connections m; cursors := cursors m;
     connection_params := connection_params m |} = m.
Proof. now destruct m. Qed.

(** [execute_query] on a known cursor is one call of the backend's
    [execute], with the call shape [execute_call] chooses; the registry
    itself is never written. *)
Lemma execute_query_known (s : State) (cursor_id query : string)
    (parameters : option (list pyval)) (cursor : Cursor) :
  Dict.get cursor_id (cursors (self s)) = Some cursor ->
  execute_query cursor_id query parameters s =
  match cursor_execute cursor (execute_call query parameters) (world s) with
  | (inr _, w') =>
      (Return {| exec_success := true;
                 exec_columns := columns_of (cursor_description cursor w');
                 exec_rowcount := if (cursor_rowcount cursor w' >=? 0)%Z
                                  then cursor_rowcount cursor w' else (-1)%Z |},
       {| self := self s; world := w' |})
  | (inl msg, w') =>
      (Raise (TrinoODBCError ("Query execution error: " ++ msg)),
       {| self := self s; world := w' |})
  end.
Proof.
  intros Hget.
  unfold execute_query, bind, get_self, try_except, subscript, backend,
    attribute, ret, raise, Dict.mem.
  rewrite Hget. simpl. rewrite Hget. simpl.
  destruct (cursor_execute cursor (execute_call query parameters) (world s))
    as [[msg|[]] w']; reflexivity.
Qed.

(** [fetch_results] on a known cursor is one call of [fetchmany]. *)
Lemma fetch_results_known (s : State) (cursor_id : string) (max_rows : Z)
    (cursor : Cursor) :
  Dict.get cursor_id (cursors (self s)) = Some cursor ->
  fetch_results cursor_id max_rows s =
  match cursor_fetchmany cursor max_rows (world s) with
  | (inr rows, w') =>
      (Return {| fetch_success := true;
                 fetch_rows := result_rows (cursor_description cursor w') rows;
                 fetch_has_more := (Z.of_nat (length rows) >=? max_rows)%Z |},
       {| self := self s; world := w' |})
  | (inl msg, w') =>
      (Raise (TrinoODBCError ("Error fetching results: " ++ msg)),
       {| self := self s; world := w' |})
  end.
Proof.
  intros Hget.
  unfold fetch_results, bind, get_self, try_except, subscript, backend,
    attribute, ret, raise, Dict.mem.
  rewrite Hget. simpl. rewrite Hget. simpl.
  destruct (cursor_fetchmany cursor max_rows (world s)) as [[msg|rows] w'];
    reflexivity.
Qed.

Lemma result_rows_length (description : option (list Column))
    (rows : list (list pyval)) :
  length (result_rows description rows) = length rows.
Proof.
  unfold result_rows. destruct description as [[|c cs]|];
    now rewrite length_map.
Qed.

(** [create_connection] when the backend refuses: nothing is stored. *)
Lemma create_connection_refused (s : State) (uuid4 : string)
    (params : Dict.t pyval) (msg : string) (w' : World) :
  trino_connect (connect_args params (basic_auth params)) (world s) = (inl msg, w') ->
  create_connection uuid4 params s =
  (Raise (TrinoODBCError ("Failed to connect to Trino: " ++ msg)),
   {| self := self s; world := w' |}).
Proof.
  intros H. unfold create_connection, try_except, bind, backend, raise.
  now rewrite H.
Qed.

(** [create_connection] when the backend accepts: both dictionaries get
    the new handle. *)
Lemma create_connection_accepted (s : State) (uuid4 : string)
    (params : Dict.t pyval) (conn : Conn) (w' : World) :
  trino_connect (connect_args params (basic_auth params)) (world s) = (inr conn, w') ->
  create_connection uuid4 params s =
  (Return uuid4,
   {| self := {| connections := Dict.set uuid4 conn (connections (self s));
                 cursors := cursors (self s);
                 connection_params :=
                   Dict.set uuid4 params (connection_params (self s)) |};
      world := w' |}).
Proof.
  intros H. unfold create_connection, try_except, bind, backend, get_self,
    put_self, ret.
  now rewrite H.
Qed.

(** [get_connection_info] on a live handle with stored parameters. *)
Lemma get_connection_info_known (s : State) (connection_id : string)
    (params : Dict.t pyval) :
  Dict.mem connection_id (connections (self s)) = true ->
  Dict.get connection_id (connection_params (self s)) = Some params ->
  get_connection_info connection_id s =
  (Return (if Dict.mem "password" params
           then Dict.set "password" password_mask params else params), s).
Proof.
  intros Hmem Hget.
  unfold get_connection_info, bind, get_self, subscript, ret.
  rewrite Hmem. simpl. now rewrite Hget.
Qed.

End MethodFacts.

(** ** Closing and using unknown handles *)

Section UnknownHandles.
Context {B : Backend}.

(** C5. Closing a handle that is not in the corresponding dictionary
    returns [False] without raising, for [close_connection] and for
    [close_cursor] alike, and the state is the one before the call. *)
Theorem close_unknown_handle (s : State) (connection_id cursor_id : string) :
  Dict.mem connection_id (connections (self s)) = false ->
  Dict.mem cursor_id (cursors (self s)) = false ->
  close_connection connection_id s = (Return false, s) /\
  close_cursor cursor_id s = (Return false, s).
Proof.
  intros Hconn Hcur. split.
  - unfold close_connection, bind, get_self, ret. now rewrite Hconn.
  - unfold close_cursor, bind, get_self, ret. now rewrite Hcur.
Qed.

(** C6. On a connection handle that is not in [self.connections],
    [create_cursor] and [get_connection_info] raise the driver's
    "does not exist" error; on a cursor handle that is not in
    [self.cursors], so do [execute_query] and [fetch_results].  None of
    them returns a result, reaches the backend or changes the state. *)
Theorem unknown_handle_not_found (s : State) (connection_id cursor_id : string)
    (uuid4 query : string) (parameters : option (list pyval)) (max_rows : Z) :
  Dict.mem connection_id (connections (self s)) = false ->
  Dict.mem cursor_id (cursors (self s)) = false ->
  create_cursor connection_id uuid4 s =
    (Raise (TrinoODBCError ("Connection " ++ connection_id ++ " does not exist")), s) /\
  execute_query cursor_id query parameters s =
    (Raise (TrinoODBCError ("Cursor " ++ cursor_id ++ " does not exist")), s) /\
  fetch_results cursor_id max_rows s =
    (Raise (TrinoODBCError ("Cursor " ++ cursor_id ++ " does not exist")), s) /\
  get_connection_info connection_id s =
    (Raise (TrinoODBCError ("Connection " ++ connection_id ++ " does not exist")), s).
Proof.
  intros Hconn Hcur. repeat split.
  - unfold create_cursor, bind, get_self, raise. now rewrite Hconn.
  - unfold execute_query, bind, get_self, raise. now rewrite Hcur.
  - unfold fetch_results, bind, get_self, raise. now rewrite Hcur.
  - unfold get_connection_info, bind, get_self, raise. now rewrite Hconn.
Qed.

End UnknownHandles.

Lemma close_unknown_handle_witness :
  close_connection (B := Fake.backend) "nonexistent" Fake.s1 = (Return false, Fake.s1) /\
  close_cursor (B := Fake.backend) "nonexistent" Fake.s1 = (Return false, Fake.s1).
Proof.
  apply (close_unknown_handle (B := Fake.backend)); reflexivity.
Defined.

Lemma unknown_handle_not_found_witness :
  create_cursor (B := Fake.backend) "nonexistent" Fake.uuid_c Fake.s1 =
    (Raise (TrinoODBCError "Connection nonexistent does not exist"), Fake.s1) /\
  execute_query (B := Fake.backend) "nonexistent" "SELECT 1" None Fake.s1 =
    (Raise (TrinoODBCError "Cursor nonexistent does not exist"), Fake.s1) /\
  fetch_results (B := Fake.backend) "nonexistent" 10 Fake.s1 =
    (Raise (TrinoODBCError "Cursor nonexistent does not exist"), Fake.s1) /\
  get_connection_info (B := Fake.backend) "nonexistent" Fake.s1 =
    (Raise (TrinoODBCError "Connection nonexistent does not exist"), Fake.s1).
Proof.
  apply (unknown_handle_not_found (B := Fake.backend)); reflexivity.
Defined.

(** ** Executing and fetching *)

Section ExecuteFetch.
Context {B : Backend}.

(** C2, as the code has it.  On a known cursor [execute_query] makes one
    call of the backend's [execute]; that call carries the parameters
    exactly when the caller gave a non-empty list.  An empty list is
    delegated as [cursor.execute(query)], exactly like no parameters at
    all, so the two calls end in the same result and the same state. *)
Theorem execute_passes_nonempty_parameters (s : State) (cursor_id query : string)
    (parameters : option (list pyval)) (cursor : Cursor) :
  Dict.get cursor_id (cursors (self s)) = Some cursor ->
  snd (execute_query cursor_id query parameters s) =
    {| self := self s;
       world := snd (cursor_execute cursor
                       match parameters with
                       | Some (p :: rest) => ExecuteWithParameters query (p :: rest)
                       | _ => ExecuteQueryOnly query
                       end (world s)) |} /\
  execute_query cursor_id query (Some []) s = execute_query cursor_id query None s.
Proof.
  intros Hget. split.
  - rewrite execute_query_known with (cursor := cursor) by exact Hget.
    replace (execute_call query parameters) with
      (match parameters with
       | Some (p :: rest) => ExecuteWithParameters query (p :: rest)
       | _ => ExecuteQueryOnly query
       end) by (now destruct parameters as [[|p rest]|]).
    now destruct (cursor_execute _ _ _) as [[msg|u] w'].
  - now rewrite !execute_query_known with (cursor := cursor) by exact Hget.
Qed.

(** C3. On a known cursor and for [max_rows >= 0], when the backend's
    [fetchmany] keeps to its contract and hands rows back,
    [fetch_results] returns them, at most [max_rows] of them, and
    [has_more] is true exactly when their number equals [max_rows]. *)
Theorem fetch_page_bound (s : State) (cursor_id : string) (max_rows : Z)
    (cursor : Cursor) (rows : list (list pyval)) (w' : World) :
  fetchmany_bounded B ->
  (0 <= max_rows)%Z ->
  Dict.get cursor_id (cursors (self s)) = Some cursor ->
  cursor_fetchmany cursor max_rows (world s) = (inr rows, w') ->
  exists r : FetchResult,
    fetch_results cursor_id max_rows s = (Return r, {| self := self s; world := w' |}) /\
    length (fetch_rows r) = length rows /\
    (Z.of_nat (length (fetch_rows r)) <= max_rows)%Z /\
    (fetch_has_more r = true <-> Z.of_nat (length (fetch_rows r)) = max_rows).
Proof.
  intros Hbound Hk Hget Hfetch.
  rewrite fetch_results_known with (cursor := cursor) by exact Hget.
  rewrite Hfetch.
  eexists. split; [reflexivity|]. simpl.
  rewrite result_rows_length.
  pose proof (Hbound _ _ _ _ _ Hk Hfetch) as Hle.
  repeat split; auto.
  - intros H. apply Z.geb_le in H. lia.
  - intros H. apply Z.geb_le. lia.
Qed.

End ExecuteFetch.

Lemma fake_fetchmany_bounded : fetchmany_bounded Fake.backend.
Proof.
  intros c size w w' rows Hsize H. simpl in H. unfold Fake.fetchmany in H.
  injection H as <- _. rewrite length_firstn. lia.
Qed.

Lemma execute_passes_nonempty_parameters_witness :
  snd (execute_query (B := Fake.backend) Fake.cursor_1 "SELECT ?" (Some [VInt 7]) Fake.s1) =
    {| self := self Fake.s1;
       world := snd (Fake.execute 1 (ExecuteWithParameters "SELECT ?" [VInt 7])
                       (world Fake.s1)) |} /\
  execute_query (B := Fake.backend) Fake.cursor_1 "SELECT ?" (Some []) Fake.s1 =
  execute_query (B := Fake.backend) Fake.cursor_1 "SELECT ?" None Fake.s1.
Proof.
  apply (execute_passes_nonempty_parameters (B := Fake.backend) Fake.s1
           Fake.cursor_1 "SELECT ?" (Some [VInt 7]) (cursor := 1)).
  reflexivity.
Defined.

(** C2, as the spec words it, fails: with an explicitly supplied empty
    parameter list the backend receives [execute(query)] without a
    parameters argument, the very call it receives when none is given. *)
Lemma empty_parameter_list_not_distinguished :
  Fake.executed
    (world (snd (execute_query (B := Fake.backend) Fake.cursor_1 "SELECT 1"
                   (Some []) Fake.s1)))
    = [(1, ExecuteQueryOnly "SELECT 1")] /\
  execute_query (B := Fake.backend) Fake.cursor_1 "SELECT 1" (Some []) Fake.s1 =
  execute_query (B := Fake.backend) Fake.cursor_1 "SELECT 1" None Fake.s1.
Proof. split; reflexivity. Qed.

Lemma fetch_page_bound_witness :
  exists r : FetchResult,
    fetch_results (B := Fake.backend) Fake.cursor_1 2 Fake.s1 =
      (Return r, {| self := self Fake.s1;
                    world := snd (Fake.fetchmany 1 2 (world Fake.s1)) |}) /\
    length (fetch_rows r) = 2 /\
    (Z.of_nat (length (fetch_rows r)) <= 2)%Z /\
    (fetch_has_more r = true <-> Z.of_nat (length (fetch_rows r)) = 2%Z).
Proof.
  apply (fetch_page_bound (B := Fake.backend) Fake.s1 Fake.cursor_1 (cursor := 1)
           (rows := [[VInt 1]; [VInt 2]])).
  - exact fake_fetchmany_bounded.
  - lia.
  - reflexivity.
  - reflexivity.
Defined.

(** ** Failures of the backend *)

Section Failures.
Context {B : Backend}.

(** C7. When the backend's [connect] raises, [create_connection] raises
    the driver's error with the backend's message and the three
    dictionaries are exactly as before.  When the backend's [execute]
    raises on a known cursor, [execute_query] raises the driver's error
    with the backend's message, the dictionaries are exactly as before,
    the handle still names the same cursor, and a later [execute_query]
    on it that the backend accepts returns a result. *)
Theorem failure_leaves_registry_intact :
  (forall (s : State) (uuid4 : string) (params : Dict.t pyval)
          (msg : string) (w' : World),
      trino_connect (connect_args params (basic_auth params)) (world s) = (inl msg, w') ->
      create_connection uuid4 params s =
        (Raise (TrinoODBCError ("Failed to connect to Trino: " ++ msg)),
         {| self := self s; world := w' |})) /\
  (forall (s : State) (cursor_id query : string) (parameters : option (list pyval))
          (cursor : Cursor) (msg : string) (w' : World),
      Dict.get cursor_id (cursors (self s)) = Some cursor ->
      cursor_execute cursor (execute_call query parameters) (world s) = (inl msg, w') ->
      execute_query cursor_id query parameters s =
        (Raise (TrinoODBCError ("Query execution error: " ++ msg)),
         {| self := self s; world := w' |}) /\
      Dict.get cursor_id (cursors (self s)) = Some cursor /\
      forall (query2 : string) (parameters2 : option (list pyval)) (w'' : World),
        cursor_execute cursor (execute_call query2 parameters2) w' = (inr tt, w'') ->
        exists r : ExecuteResult,
          execute_query cursor_id query2 parameters2 {| self := self s; world := w' |} =
            (Return r, {| self := self s; world := w'' |})).
Proof.
  split.
  - intros s uuid4 params msg w' H. now apply create_connection_refused.
  - intros s cursor_id query parameters cursor msg w' Hget Hexec.
    split; [|split]; auto.
    + rewrite execute_query_known with (cursor := cursor) by exact Hget.
      now rewrite Hexec.
    + intros query2 parameters2 w'' Hexec2.
      rewrite execute_query_known with (cursor := cursor) by exact Hget.
      simpl. rewrite Hexec2. eexists. reflexivity.
Qed.

End Failures.

Lemma failure_leaves_registry_intact_witness :
  create_connection (B := Fake.backend) Fake.uuid_c Fake.lost Fake.s1 =
    (Raise (TrinoODBCError "Failed to connect to Trino: connection refused"), Fake.s1) /\
  execute_query (B := Fake.backend) Fake.cursor_1 "SELECT boom" None Fake.s1 =
    (Raise (TrinoODBCError "Query execution error: syntax error"), Fake.s1) /\
  exists r : ExecuteResult,
    execute_query (B := Fake.backend) Fake.cursor_1 "SELECT 1" None Fake.s1 =
      (Return r, {| self := self Fake.s1;
                    world := snd (Fake.execute 1 (ExecuteQueryOnly "SELECT 1")
                                    (world Fake.s1)) |}).
Proof.
  destruct (failure_leaves_registry_intact (B := Fake.backend)) as [Hconnect Hexecute].
  split.
  - apply (Hconnect Fake.s1 Fake.uuid_c Fake.lost "connection refused" (world Fake.s1)).
    reflexivity.
  - destruct (Hexecute Fake.s1 Fake.cursor_1 "SELECT boom" None 1 "syntax error"
                (world Fake.s1) eq_refl eq_refl) as [Hraise [_ Hagain]].
    split.
    + exact Hraise.
    + apply (Hagain "SELECT 1" None). reflexivity.
Defined.

(** ** Inspecting a connection *)

Section ConnectionInfo.
Context {B : Backend}.

(** C4, as the code has it.  [create_connection] stores the parameters
    it is given, unchanged, under the handle it returns.  For a live
    handle whose stored parameters have a password,
    [get_connection_info] returns the stored parameters with the password
    replaced by the marker ["***"]: same keys in the same order, every
    other field as stored, nothing written to the state.  The password
    field holds the marker whatever the password was, so it differs from
    the password unless the password is itself the marker. *)
Theorem connection_info_masks_password (s : State) (connection_id : string)
    (params : Dict.t pyval) (password : pyval) :
  Dict.mem connection_id (connections (self s)) = true ->
  Dict.get connection_id (connection_params (self s)) = Some params ->
  Dict.get "password" params = Some password ->
  (forall (s0 s1 : State) (uuid4 h : string) (supplied : Dict.t pyval),
      create_connection uuid4 supplied s0 = (Return h, s1) ->
      Dict.mem h (connections (self s1)) = true /\
      Dict.get h (connection_params (self s1)) = Some supplied) /\
  exists info : Dict.t pyval,
    get_connection_info connection_id s = (Return info, s) /\
    Dict.get "password" info = Some password_mask /\
    (forall k : string, k <> "password" -> Dict.get k info = Dict.get k params) /\
    Dict.keys info = Dict.keys params /\
    (password <> password_mask -> Dict.get "password" info <> Some password).
Proof.
  intros Hlive Hstored Hpw. split.
  { intros s0 s1 uuid4 h supplied Hopen.
    destruct (trino_connect (connect_args supplied (basic_auth supplied)) (world s0))
      as [[msg|conn] w'] eqn:Hconnect.
    - rewrite (create_connection_refused _ _ _ Hconnect) in Hopen. discriminate.
    - rewrite (create_connection_accepted _ _ _ Hconnect) in Hopen.
      injection Hopen as <- <-. simpl.
      split; [apply DictFacts.mem_set_eq | apply DictFacts.get_set_eq]. }
  pose proof (DictFacts.get_some_mem _ _ Hpw) as Hmem.
  exists (Dict.set "password" password_mask params).
  split; [|split; [|split; [|split]]].
  - rewrite get_connection_info_known with (params := params) by assumption.
    now rewrite Hmem.
  - apply DictFacts.get_set_eq.
  - intros k Hk. apply DictFacts.get_set_neq. congruence.
  - rewrite DictFacts.keys_set. now rewrite Hmem.
  - intros Hne. rewrite DictFacts.get_set_eq. congruence.
Qed.

End ConnectionInfo.

Lemma connection_info_masks_password_witness :
  exists info : Dict.t pyval,
    get_connection_info (B := Fake.backend) Fake.uuid_a Fake.s1 = (Return info, Fake.s1) /\
    Dict.get "password" info = Some password_mask /\
    (forall k : string, k <> "password" -> Dict.get k info = Dict.get k Fake.alice) /\
    Dict.keys info = Dict.keys Fake.alice /\
    (VStr "secret" <> password_mask -> Dict.get "password" info <> Some (VStr "secret")).
Proof.
  apply (@connection_info_masks_password Fake.backend Fake.s1 Fake.uuid_a Fake.alice
           (VStr "secret")); reflexivity.
Defined.

(** C4, as the spec words it, fails: a connection opened with the
    password ["***"] gets its parameters back verbatim, the password
    field holding the very value supplied at open time. *)
Lemma connection_info_returns_supplied_password :
  get_connection_info (B := Fake.backend) Fake.uuid_a Fake.s_starred =
    (Return Fake.starred, Fake.s_starred) /\
  Dict.get "password" Fake.starred = Some (VStr "***").
Proof. split; reflexivity. Qed.

(** ** What each method does to the three dictionaries *)

Section Frames.
Context {B : Backend}.

Lemma cursors_shrink_refl (s : State) : cursors_shrink s s.
Proof. now intros k. Qed.

Lemma cursors_shrink_same (s s' : State) :
  cursors (self s') = cursors (self s) -> cursors_shrink s s'.
Proof. intros H k. now rewrite H. Qed.

Lemma cursors_shrink_trans (s1 s2 s3 : State) :
  cursors_shrink s1 s2 -> cursors_shrink s2 s3 -> cursors_shrink s1 s3.
Proof. intros H12 H23 k Hk. auto. Qed.

(** The cascade loop: only [self.cursors] is written, keys only leave
    it, and when the loop runs to its end every listed key has left. *)
Lemma close_cursors_frame (l : list string) :
  forall (s s' : State) (r : result unit),
    close_cursors l s = (r, s') ->
    connections (self s') = connections (self s) /\
    connection_params (self s') = connection_params (self s) /\
    cursors_shrink s s' /\
    (r = Return tt ->
     forall k, In k l -> Dict.mem k (cursors (self s')) = false).
Proof.
  induction l as [|k0 rest IH]; intros s s' r H.
  - simpl in H. unfold_monad. inv_pair H.
    repeat split; auto using cursors_shrink_same. intros _ k [].
  - simpl in H. unfold_monad. simpl in H.
    destruct (Dict.get k0 (cursors (self s))) as [cur|] eqn:Hget.
    2:{ inv_pair H. repeat split; auto using cursors_shrink_same. discriminate. }
    simpl in H.
    destruct (cursor_close cur (world s)) as [[msg|u] w1] eqn:Hclose; simpl in H.
    { inv_pair H. repeat split; auto using cursors_shrink_same. discriminate. }
    rewrite (DictFacts.get_some_mem _ _ Hget) in H. simpl in H.
    apply IH in H. simpl in H. destruct H as (Hc & Hp & Hshrink & Hgone).
    assert (Hgone0 : Dict.mem k0 (cursors (self s')) = false).
    { destruct (Dict.mem k0 (cursors (self s'))) eqn:E; auto.
      apply Hshrink in E. simpl in E. now rewrite DictFacts.mem_del_eq in E. }
    repeat split; auto.
    + intros k Hk. apply Hshrink in Hk. simpl in Hk.
      now apply DictFacts.mem_del_true in Hk.
    + intros Hr k [<-|Hin]; auto.
Qed.

(** [close_connection]: either both connection dictionaries are left as
    they were, or the handle has left [self.connections] after the whole
    cascade ran; then it leaves [self.connection_params] too, provided it
    was there. *)
Lemma close_connection_frame (s s' : State) (h : string) (r : result bool) :
  close_connection h s = (r, s') ->
  cursors_shrink s s' /\
  ((connections (self s') = connections (self s) /\
    connection_params (self s') = connection_params (self s) /\
    r <> Return true) \/
   (Dict.mem h (connections (self s)) = true /\
    connections (self s') = Dict.del h (connections (self s)) /\
    (forall k, String.prefix h k = true -> Dict.mem k (cursors (self s')) = false) /\
    ((r = Return true /\
      connection_params (self s') = Dict.del h (connection_params (self s))) \/
     (r = Raise (KeyError h) /\
      connection_params (self s') = connection_params (self s) /\
      Dict.mem h (connection_params (self s)) = false)))).
Proof.
  unfold close_connection. unfold bind at 1. unfold get_self at 1.
  destruct (Dict.mem h (connections (self s))) eqn:Hmem.
  2:{ unfold ret. intros H. inv_pair H.
      split; [now apply cursors_shrink_same|]. left. repeat split. discriminate. }
  unfold bind at 1.
  destruct (close_cursors _ s) as [r1 s1] eqn:Hloop.
  apply close_cursors_frame in Hloop. destruct Hloop as (Hc & Hp & Hshrink & Hgone).
  destruct r1 as [[]|e].
  2:{ intros H. inv_pair H. split; auto. left. repeat split; auto. discriminate. }
  specialize (Hgone eq_refl).
  assert (Hprefix : forall k, String.prefix h k = true ->
                              Dict.mem k (cursors (self s1)) = false).
  { intros k Hk. destruct (Dict.mem k (cursors (self s))) eqn:E.
    - apply Hgone. apply filter_In. split; auto. now apply DictFacts.mem_keys.
    - destruct (Dict.mem k (cursors (self s1))) eqn:E1; auto.
      apply Hshrink in E1. congruence. }
  unfold_monad. simpl. rewrite Hc.
  destruct (DictFacts.mem_get _ _ Hmem) as [conn Hconn]. rewrite Hconn. simpl.
  destruct (conn_close conn (world s1)) as [[msg|u] w2]; simpl.
  { intros H. inv_pair H. split; auto. left. repeat split; auto. discriminate. }
  rewrite Hc, Hmem. simpl. rewrite Hp.
  destruct (Dict.mem h (connection_params (self s))) eqn:Hpm; simpl;
    intros H; inv_pair H; (split; [exact Hshrink|]); right; repeat split; auto.
Qed.

Lemma create_connection_frame (s s' : State) (uuid4 : string)
    (params : Dict.t pyval) (r : result string) :
  create_connection uuid4 params s = (r, s') ->
  cursors (self s') = cursors (self s) /\
  ((self s' = self s /\ exists msg, r = Raise (TrinoODBCError msg)) \/
   (r = Return uuid4 /\
    exists conn,
      connections (self s') = Dict.set uuid4 conn (connections (self s)) /\
      connection_params (self s') =
        Dict.set uuid4 params (connection_params (self s)))).
Proof.
  destruct (trino_connect (connect_args params (basic_auth params)) (world s))
    as [[msg|conn] w'] eqn:Hc.
  - rewrite (create_connection_refused _ _ _ Hc). intros H. inv_pair H.
    split; auto. left. eauto.
  - rewrite (create_connection_accepted _ _ _ Hc). intros H. inv_pair H.
    split; auto. right. eauto.
Qed.

Lemma create_cursor_frame (s s' : State) (h uuid4 : string) (r : result string) :
  create_cursor h uuid4 s = (r, s') ->
  connections (self s') = connections (self s) /\
  connection_params (self s') = connection_params (self s) /\
  ((self s' = self s /\ exists e, r = Raise e) \/
   (r = Return (h ++ "_" ++ uuid4)%string /\
    Dict.mem h (connections (self s)) = true /\
    exists cur,
      cursors (self s') = Dict.set (h ++ "_" ++ uuid4)%string cur (cursors (self s)))).
Proof.
  unfold create_cursor. unfold_monad. simpl.
  destruct (Dict.mem h (connections (self s))) eqn:Hmem; simpl.
  2:{ intros H. inv_pair H. repeat split; auto. left. eauto. }
  destruct (DictFacts.mem_get _ _ Hmem) as [conn Hconn]. rewrite Hconn. simpl.
  destruct (conn_cursor conn (world s)) as [[msg|cur] w']; simpl;
    intros H; inv_pair H; repeat split; auto.
  - left. eauto.
  - right. eauto.
Qed.

Lemma close_cursor_frame (s s' : State) (k : string) (r : result bool) :
  close_cursor k s = (r, s') ->
  connections (self s') = connections (self s) /\
  connection_params (self s') = connection_params (self s) /\
  cursors_shrink s s'.
Proof.
  unfold close_cursor. unfold_monad. simpl.
  destruct (Dict.mem k (cursors (self s))) eqn:Hmem; simpl.
  2:{ intros H. inv_pair H. auto using cursors_shrink_same. }
  destruct (DictFacts.mem_get _ _ Hmem) as [cur Hcur]. rewrite Hcur. simpl.
  destruct (cursor_close cur (world s)) as [[msg|u] w']; simpl.
  { intros H. inv_pair H. auto using cursors_shrink_same. }
  rewrite Hmem. simpl. intros H. inv_pair H. repeat split; auto.
  intros k' Hk'. simpl in Hk'. now apply DictFacts.mem_del_true in Hk'.
Qed.

Lemma execute_query_frame (s s' : State) (k q : string)
    (ps : option (list pyval)) (r : result ExecuteResult) :
  execute_query k q ps s = (r, s') -> self s' = self s.
Proof.
  destruct (Dict.get k (cursors (self s))) as [cur|] eqn:Hget.
  - rewrite execute_query_known with (cursor := cur) by exact Hget.
    destruct (cursor_execute _ _ _) as [[msg|u] w']; intros H; now inv_pair H.
  - unfold execute_query, Dict.mem. unfold_monad. rewrite Hget. simpl.
    intros H. now inv_pair H.
Qed.

Lemma fetch_results_frame (s s' : State) (k : string) (n : Z)
    (r : result FetchResult) :
  fetch_results k n s = (r, s') -> self s' = self s.
Proof.
  destruct (Dict.get k (cursors (self s))) as [cur|] eqn:Hget.
  - rewrite fetch_results_known with (cursor := cur) by exact Hget.
    destruct (cursor_fetchmany _ _ _) as [[msg|rows] w']; intros H; now inv_pair H.
  - unfold fetch_results, Dict.mem. unfold_monad. rewrite Hget. simpl.
    intros H. now inv_pair H.
Qed.

Lemma get_connection_info_frame (s s' : State) (h : string)
    (r : result (Dict.t pyval)) :
  get_connection_info h s = (r, s') -> s' = s.
Proof.
  unfold get_connection_info. unfold_monad. simpl.
  destruct (Dict.mem h (connections (self s))); simpl.
  - destruct (Dict.get h (connection_params (self s))); simpl;
      intros H; now inv_pair H.
  - intros H. now inv_pair H.
Qed.

End Frames.

(** ** Invariants along every sequence of operations *)

Section RunFacts.
Context {B : Backend}.

Lemma fmap_inv {A C} (f : A -> C) (m : M A) (s s' : State) (r : result C) :
  fmap f m s = (r, s') ->
  exists r0, m s = (r0, s') /\
             r = match r0 with Return a => Return (f a) | Raise e => Raise e end.
Proof.
  unfold fmap, bind, ret. destruct (m s) as [[a|e] s1]; intros H;
    injection H as <- <-; eauto.
Qed.

Lemma run_cons (o : op) (ops : list op) (s : State) :
  run (o :: ops) s = run ops (snd (call o s)).
Proof.
  unfold run. simpl. destruct (call o s) as [r s1]. simpl.
  now destruct (trace ops s1).
Qed.

Lemma trace_cons (o : op) (ops : list op) (s : State) :
  fst (trace (o :: ops) s) =
  (o, fst (call o s)) :: fst (trace ops (snd (call o s))).
Proof.
  simpl. destruct (call o s) as [r s1]. simpl.
  now destruct (trace ops s1).
Qed.

(** A property of the dictionaries that every call keeps holds after
    every sequence of calls. *)
Lemma run_invariant (P : ConnectionManager -> Prop) :
  (forall o s r s', P (self s) -> call o s = (r, s') -> P (self s')) ->
  forall ops s, P (self s) -> P (self (run ops s)).
Proof.
  intros Hstep ops. induction ops as [|o ops IH]; intros s Hs.
  - exact Hs.
  - rewrite run_cons. apply IH.
    destruct (call o s) as [r s1] eqn:Hcall. simpl. eauto.
Qed.

Lemma call_keeps_in_step (o : op) (s s' : State) (r : result response) :
  keys_in_step (self s) -> call o s = (r, s') -> keys_in_step (self s').
Proof.
  unfold keys_in_step. intros Hinv Hcall.
  destruct o; simpl in Hcall; apply fmap_inv in Hcall as (r0 & Hcall & _).
  - apply create_connection_frame in Hcall as (_ & [(-> & _)|(_ & conn & -> & ->)]); auto.
    rewrite !DictFacts.keys_set.
    rewrite (DictFacts.mem_same_keys _ _ uuid4 Hinv), Hinv. reflexivity.
  - apply close_connection_frame in Hcall as (_ & [(-> & -> & _)|(Hmem & -> & _ & Hp)]); auto.
    destruct Hp as [(_ & ->)|(_ & _ & Hno)].
    + rewrite !DictFacts.keys_del. now rewrite Hinv.
    + (* the handle was in [self.connections], hence in the parameters too *)
      rewrite (DictFacts.mem_same_keys _ _ connection_id Hinv) in Hmem. congruence.
  - apply create_cursor_frame in Hcall as (-> & -> & _). auto.
  - apply close_cursor_frame in Hcall as (-> & -> & _). auto.
  - apply execute_query_frame in Hcall. now rewrite Hcall.
  - apply fetch_results_frame in Hcall. now rewrite Hcall.
  - apply get_connection_info_frame in Hcall. now subst.
Qed.


Lemma cursor_openings_cons (o : op) (r : result response)
    (t : list (op * result response)) :
  cursor_openings ((o, r) :: t) = cursor_openings [(o, r)] ++ cursor_openings t.
Proof.
  destruct o; simpl; auto. destruct r as [[h| | | |]|e]; auto.
Qed.

(** A call keeps every cursor handle tied to an opening whose connection
    is live; a successful [OpenCursor] adds its own opening. *)
Lemma call_keeps_opened (D : list (string * string)) (o : op) (s s' : State)
    (r : result response) :
  opened_under D (self s) -> call o s = (r, s') ->
  opened_under (D ++ cursor_openings [(o, r)]) (self s').
Proof.
  intros Hinv Hcall.
  assert (Hweak : forall m, opened_under D m ->
                            opened_under (D ++ cursor_openings [(o, r)]) m).
  { intros m Hm k Hk. destruct (Hm k Hk) as (c & u & Hin & Hshape & Hlive).
    exists c, u. repeat split; auto. apply in_or_app. auto. }
  destruct o; simpl in Hcall; apply fmap_inv in Hcall as (r0 & Hcall & Hr).
  - apply Hweak.
    apply create_connection_frame in Hcall as (Hcur & [(-> & _)|(_ & conn & Hc & _)]); auto.
    intros k Hk. rewrite Hcur in Hk.
    destruct (Hinv k Hk) as (c & u & Hin & Hshape & Hlive).
    exists c, u. repeat split; auto. rewrite Hc. now apply DictFacts.mem_set_mono.
  - apply Hweak.
    apply close_connection_frame in Hcall as (Hshrink & [(Hc & _)|(_ & Hc & Hgone & _)]).
    + intros k Hk. rewrite Hc. auto.
    + intros k Hk.
      destruct (Hinv k (Hshrink k Hk)) as (c & u & Hin & Hshape & Hlive).
      exists c, u. repeat split; auto. rewrite Hc.
      destruct (string_dec connection_id c) as [->|Hne].
      * rewrite Hgone in Hk by (rewrite Hshape; apply prefix_append). discriminate.
      * now rewrite DictFacts.mem_del_neq.
  - apply create_cursor_frame in Hcall
      as (Hc & _ & [(Hs & _)|(Hret & Hlive & cur & Hcur)]).
    + apply Hweak. now rewrite Hs.
    + subst r0 r. simpl. intros k Hk. rewrite Hc. rewrite Hcur in Hk.
      destruct (string_dec (connection_id ++ "_" ++ uuid4) k) as [<-|Hne].
      * exists connection_id, uuid4. repeat split; auto.
        apply in_or_app. right. simpl. auto.
      * rewrite DictFacts.mem_set_neq in Hk by exact Hne.
        destruct (Hinv k Hk) as (c & u & Hin & Hshape & Hlive').
        exists c, u. repeat split; auto. apply in_or_app. auto.
  - apply Hweak. apply close_cursor_frame in Hcall as (Hc & _ & Hshrink).
    intros k Hk. rewrite Hc. auto.
  - apply Hweak. apply execute_query_frame in Hcall. now rewrite Hcall.
  - apply Hweak. apply fetch_results_frame in Hcall. now rewrite Hcall.
  - apply Hweak. apply get_connection_info_frame in Hcall. now subst.
Qed.

Lemma run_keeps_opened (ops : list op) :
  forall (D : list (string * string)) (s : State),
    opened_under D (self s) ->
    opened_under (D ++ cursor_openings (fst (trace ops s))) (self (run ops s)).
Proof.
  induction ops as [|o ops IH]; intros D s H.
  - simpl. now rewrite app_nil_r.
  - rewrite run_cons, trace_cons, cursor_openings_cons, app_assoc. apply IH.
    destruct (call o s) as [r s1] eqn:Hcall. simpl.
    eapply call_keeps_opened; eauto.
Qed.

Lemma init_opened (w : World) : opened_under [] (self (init w)).
Proof. intros k Hk. discriminate. Qed.

Lemma init_in_step (w : World) : keys_in_step (self (init w)).
Proof. reflexivity. Qed.

Lemma init_owned (w : World) : cursors_owned (self (init w)).
Proof. intros k Hk. discriminate. Qed.

End RunFacts.

Section RunClaims.
Context {B : Backend}.

(** C1. After any sequence of registry operations from the empty
    registry, every handle in [self.cursors] was returned by a successful
    [OpenCursor] of that sequence, consists of that call's connection
    handle, ["_"] and a suffix, and that connection is still in
    [self.connections].  [create_cursor] hands out exactly such handles,
    and when [close_connection c] returns [True], [c] has left
    [self.connections], no handle starting with [c] is left in
    [self.cursors], and [close_cursor] on any cursor handle opened under
    [c] returns [False]. *)
Theorem cursors_follow_connections (ops : list op) (w : World) :
  let s := run ops (init w) in
  (forall k : string,
      Dict.mem k (cursors (self s)) = true ->
      exists c u : string,
        In (c, k) (cursor_openings (fst (trace ops (init w)))) /\
        k = (c ++ "_" ++ u)%string /\
        Dict.mem c (connections (self s)) = true) /\
  (forall (c u k : string) (s1 : State),
      create_cursor c u s = (Return k, s1) -> k = (c ++ "_" ++ u)%string) /\
  (forall (c : string) (s' : State),
      close_connection c s = (Return true, s') ->
      Dict.mem c (connections (self s')) = false /\
      (forall k, String.prefix c k = true -> Dict.mem k (cursors (self s')) = false) /\
      forall u : string,
        close_cursor (c ++ "_" ++ u)%string s' = (Return false, s')).
Proof.
  intros s. split; [|split].
  - exact (@run_keeps_opened _ ops [] (init w) (@init_opened _ w)).
  - intros c u k s1 H.
    apply create_cursor_frame in H as (_ & _ & [(_ & e & He)|(He & _)]); congruence.
  - intros c s' H.
    apply close_connection_frame in H as (_ & [(_ & _ & Hr)|(_ & Hc & Hgone & _)]);
      [congruence|].
    split; [|split]; auto.
    + rewrite Hc. apply DictFacts.mem_del_eq.
    + intros u. unfold close_cursor, bind, get_self, ret.
      now rewrite Hgone by apply prefix_append.
Qed.

(** C10. After any sequence of registry operations from the empty
    registry, [self.connections] and [self.connection_params] have the
    same keys.  So [get_connection_info] on a live handle finds the
    stored parameters and returns (their masked copy) without raising,
    and the state after it is the state before it. *)
Theorem params_follow_connections (ops : list op) (w : World) :
  let s := run ops (init w) in
  keys_in_step (self s) /\
  (forall h : string,
      Dict.mem h (connections (self s)) = Dict.mem h (connection_params (self s))) /\
  (forall h : string,
      Dict.mem h (connections (self s)) = true ->
      exists params : Dict.t pyval,
        Dict.get h (connection_params (self s)) = Some params /\
        get_connection_info h s =
          (Return (if Dict.mem "password" params
                   then Dict.set "password" password_mask params else params), s)).
Proof.
  intros s.
  assert (Hinv : keys_in_step (self s)).
  { apply run_invariant; [intros; eapply call_keeps_in_step; eauto | apply init_in_step]. }
  split; [exact Hinv | split].
  - intros h. now apply DictFacts.mem_same_keys.
  - intros h Hlive.
    assert (Hp : Dict.mem h (connection_params (self s)) = true).
    { now rewrite <- (DictFacts.mem_same_keys _ _ h Hinv). }
    destruct (DictFacts.mem_get _ _ Hp) as [params Hparams].
    exists params. split; auto.
    now apply get_connection_info_known.
Qed.

End RunClaims.

Lemma cursors_follow_connections_witness :
  close_connection (B := Fake.backend) Fake.uuid_a Fake.s1 =
    (Return true, snd (close_connection (B := Fake.backend) Fake.uuid_a Fake.s1)) /\
  close_cursor (B := Fake.backend) Fake.cursor_1
    (snd (close_connection (B := Fake.backend) Fake.uuid_a Fake.s1)) =
    (Return false, snd (close_connection (B := Fake.backend) Fake.uuid_a Fake.s1)).
Proof.
  split; [reflexivity|].
  destruct (@cursors_follow_connections Fake.backend
              [OpenConnection Fake.uuid_a Fake.alice; OpenCursor Fake.uuid_a Fake.uuid_b]
              Fake.w0) as (_ & _ & Hcascade).
  destruct (Hcascade Fake.uuid_a
              (snd (close_connection (B := Fake.backend) Fake.uuid_a Fake.s1))
              eq_refl) as (_ & _ & Hclosed).
  exact (Hclosed Fake.uuid_b).
Defined.

Lemma params_follow_connections_witness :
  get_connection_info (B := Fake.backend) Fake.uuid_a Fake.s1 =
    (Return [("host", VStr "db1"); ("port", VInt 8080); ("user", VStr "alice");
             ("password", VStr "***")], Fake.s1).
Proof.
  destruct (@params_follow_connections Fake.backend
              [OpenConnection Fake.uuid_a Fake.alice; OpenCursor Fake.uuid_a Fake.uuid_b]
              Fake.w0) as (_ & _ & Hinfo).
  destruct (Hinfo Fake.uuid_a eq_refl) as (params & Hstored & Hget).
  injection Hstored as <-. exact Hget.
Defined.

(** ** Handle allocation *)


Section HandleFacts.
Context {B : Backend}.














End HandleFacts.



(** ** Interleaved callers *)

Section ThreadFacts.
Context {B : Backend}.

Lemma set_thread_same (ths : nat -> pc) (t : nat) (p : pc) :
  set_thread ths t p t = p.
Proof. unfold set_thread. now rewrite Nat.eqb_refl. Qed.

Lemma set_thread_other (ths : nat -> pc) (t t' : nat) (p : pc) :
  t' <> t -> set_thread ths t p t' = ths t'.
Proof.
  intros H. unfold set_thread. apply Nat.eqb_neq in H. now rewrite H.
Qed.

(** A statement keeps its thread inside, or outside, the locked block. *)
Lemma local_critical (p p' : pc) (s s' : State) :
  local p s = Some (p', s') -> in_critical p' = in_critical p.
Proof.
  intros H. destruct p; simpl in H; local_cases H; reflexivity.
Qed.

(** Outside the locked blocks no statement writes the dictionaries. *)
Lemma local_outside (p p' : pc) (s s' : State) :
  local p s = Some (p', s') -> in_critical p = false -> self s' = self s.
Proof.
  intros H Hout. destruct p; simpl in Hout; try discriminate Hout;
    simpl in H; local_cases H; reflexivity.
Qed.

Lemma acquire_critical (p p' : pc) :
  acquire p = Some p' -> in_critical p = false /\ in_critical p' = true.
Proof. destruct p; simpl; intros H; try discriminate H; injection H as <-; auto. Qed.

Lemma release_critical (p p' : pc) :
  release p = Some p' -> in_critical p = true /\ in_critical p' = false.
Proof. destruct p; simpl; intros H; try discriminate H; injection H as <-; auto. Qed.

Lemma point_inv_outside (m : ConnectionManager) (p : pc) :
  in_critical p = false -> point_inv m p.
Proof. destruct p; simpl; intros H; try discriminate H; exact I. Qed.

Lemma point_inv_acquire (m : ConnectionManager) (p p' : pc) :
  acquire p = Some p' -> point_inv m p'.
Proof. destruct p; simpl; intros H; try discriminate H; injection H as <-; exact I. Qed.

End ThreadFacts.

Section ThreadInvariant.
Context {B : Backend}.

Lemma owned_set_connection (m : ConnectionManager) (h : string) (conn : Conn) :
  cursors_owned m ->
  cursors_owned {| connections := Dict.set h conn (connections m);
                   cursors := cursors m;
                   connection_params := connection_params m |}.
Proof.
  intros Hown k Hk. destruct (Hown k Hk) as (c & u & -> & Hlive).
  exists c, u. split; auto. simpl. now apply DictFacts.mem_set_mono.
Qed.

Lemma owned_del_cursor (m : ConnectionManager) (k0 : string) :
  cursors_owned m ->
  cursors_owned {| connections := connections m;
                   cursors := Dict.del k0 (cursors m);
                   connection_params := connection_params m |}.
Proof.
  intros Hown k Hk. simpl in Hk. apply DictFacts.mem_del_true in Hk as [_ Hk].
  exact (Hown k Hk).
Qed.

Lemma owned_del_connection (m : ConnectionManager) (h : string) :
  cursors_owned m ->
  (forall k, String.prefix h k = true -> Dict.mem k (cursors m) = false) ->
  cursors_owned {| connections := Dict.del h (connections m);
                   cursors := cursors m;
                   connection_params := connection_params m |}.
Proof.
  intros Hown Hgone k Hk. simpl in Hk.
  destruct (Hown k Hk) as (c & u & -> & Hlive).
  exists c, u. split; auto. simpl.
  destruct (string_dec h c) as [->|Hne].
  - rewrite Hgone in Hk by apply prefix_append. discriminate.
  - now rewrite DictFacts.mem_del_neq.
Qed.

Lemma owned_set_cursor (m : ConnectionManager) (h u : string) (cur : Cursor) :
  cursors_owned m ->
  Dict.mem h (connections m) = true ->
  cursors_owned {| connections := connections m;
                   cursors := Dict.set (h ++ "_" ++ u)%string cur (cursors m);
                   connection_params := connection_params m |}.
Proof.
  intros Hown Hlive k Hk. simpl in Hk. simpl.
  destruct (string_dec (h ++ "_" ++ u) k) as [<-|Hne].
  - exists h, u. split; [reflexivity | exact Hlive].
  - rewrite DictFacts.mem_set_neq in Hk by exact Hne. exact (Hown k Hk).
Qed.

(** A statement keeps the ownership invariant and takes its thread to a
    program point whose assumption holds. *)
Lemma local_keeps (p p' : pc) (s s' : State) :
  local p s = Some (p', s') ->
  cursors_owned (self s) -> point_inv (self s) p ->
  cursors_owned (self s') /\ point_inv (self s') p'.
Proof.
  intros H Hown Hpt.
  destruct p; simpl in H; local_cases H; simpl in Hpt;
    try (split; [exact Hown | first [exact I | exact Hpt]]).
  - (* self.connections[connection_id] = conn *)
    split; [now apply owned_set_connection | exact I].
  - (* cursors_to_close = [...] *)
    split; [exact Hown|]. intros k Hk Hmem.
    apply filter_In. split; [now apply DictFacts.mem_keys | exact Hk].
  - (* the loop is over *)
    split; [exact Hown|]. intros k Hk.
    destruct (Dict.mem k (cursors (self s))) eqn:E; auto.
    destruct (Hpt k Hk E).
  - (* self.cursors[cursor_id].close() *)
    split; [exact Hown|]. intros k Hk Hmem.
    destruct (Hpt k Hk Hmem) as [<-|Hin]; auto.
  - (* del self.cursors[cursor_id] *)
    split; [now apply owned_del_cursor|]. intros k Hk Hmem.
    apply DictFacts.mem_del_true in Hmem as [Hne Hmem].
    destruct (Hpt k Hk Hmem) as [->|Hin]; [congruence | exact Hin].
  - (* del self.connections[connection_id] *)
    split; [now apply owned_del_connection|].
    split; [apply DictFacts.mem_del_eq | exact Hpt].
  - (* the test of create_cursor passed *)
    split; [exact Hown|].
    match goal with E : negb _ = false |- _ => apply negb_false_iff in E; exact E end.
  - (* self.cursors[cursor_id] = ... *)
    split; [now apply owned_set_cursor | exact I].
  - (* del self.cursors[cursor_id] in close_cursor *)
    split; [now apply owned_del_cursor | exact I].
Qed.

Lemma initial_inv (w : World) : config_inv (initial w).
Proof.
  split; [|split].
  - intros t Ht. discriminate Ht.
  - apply init_owned.
  - intros t. exact I.
Qed.

(** Every step of every thread keeps the invariant. *)
Lemma step_keeps_inv (t : nat) (c c' : config) :
  config_inv c -> step t c c' -> config_inv c'.
Proof.
  intros (Hlock & Hown & Hpt) Hstep.
  assert (Hothers : forall s', (in_critical (threads c t) = false -> self s' = self (shared c)) ->
                    (in_critical (threads c t) = true ->
                     forall t', t' <> t -> in_critical (threads c t') = false) /\
                    forall t', t' <> t -> self s' = self (shared c) \/
                                          in_critical (threads c t') = false).
  { intros s' Hs'. split.
    - intros Hin t' Hne. destruct (in_critical (threads c t')) eqn:E; auto.
      apply Hlock in E. apply Hlock in Hin. congruence.
    - intros t' Hne. destruct (in_critical (threads c t)) eqn:E; auto.
      right. destruct (in_critical (threads c t')) eqn:E'; auto.
      apply Hlock in E. apply Hlock in E'. congruence. }
  inversion Hstep as [o Hidle | p' Hacq Hfree | p' Hrel | p' s' Hloc | r Hdone];
    subst c'; (split; [|split]); unfold lock_inv; cbn [shared lock threads].
  - (* a call starts *)
    intros t' Ht'. destruct (Nat.eq_dec t' t) as [->|Hne].
    + rewrite set_thread_same in Ht'. now destruct o.
    + rewrite set_thread_other in Ht' by exact Hne. auto.
  - exact Hown.
  - intros t'. destruct (Nat.eq_dec t' t) as [->|Hne].
    + rewrite set_thread_same. now destruct o.
    + rewrite set_thread_other by exact Hne. apply Hpt.
  - (* acquire *)
    intros t' Ht'. destruct (Nat.eq_dec t' t) as [->|Hne]; auto.
    rewrite set_thread_other in Ht' by exact Hne.
    apply Hlock in Ht'. congruence.
  - exact Hown.
  - intros t'. destruct (Nat.eq_dec t' t) as [->|Hne].
    + rewrite set_thread_same. eapply point_inv_acquire; eauto.
    + rewrite set_thread_other by exact Hne. apply Hpt.
  - (* release *)
    apply release_critical in Hrel as [Hin Hout].
    intros t' Ht'. destruct (Nat.eq_dec t' t) as [->|Hne].
    + rewrite set_thread_same in Ht'. congruence.
    + rewrite set_thread_other in Ht' by exact Hne.
      apply Hlock in Ht'. apply Hlock in Hin. congruence.
  - exact Hown.
  - intros t'. destruct (Nat.eq_dec t' t) as [->|Hne].
    + rewrite set_thread_same. apply point_inv_outside.
      now apply release_critical in Hrel.
    + rewrite set_thread_other by exact Hne. apply Hpt.
  - (* a statement *)
    intros t' Ht'. destruct (Nat.eq_dec t' t) as [->|Hne].
    + rewrite set_thread_same in Ht'.
      rewrite (local_critical _ _ Hloc) in Ht'. auto.
    + rewrite set_thread_other in Ht' by exact Hne. auto.
  - now apply (local_keeps _ _ Hloc Hown (Hpt t)).
  - intros t'. destruct (Nat.eq_dec t' t) as [->|Hne].
    + rewrite set_thread_same. now apply (local_keeps _ _ Hloc Hown (Hpt t)).
    + rewrite set_thread_other by exact Hne.
      destruct (Hothers s' (local_outside _ _ Hloc)) as [_ Hframe].
      destruct (Hframe t' Hne) as [->|Hout]; [apply Hpt|].
      now apply point_inv_outside.
  - (* the method returns *)
    intros t' Ht'. destruct (Nat.eq_dec t' t) as [->|Hne].
    + now rewrite set_thread_same in Ht'.
    + rewrite set_thread_other in Ht' by exact Hne. auto.
  - exact Hown.
  - intros t'. destruct (Nat.eq_dec t' t) as [->|Hne].
    + rewrite set_thread_same. exact I.
    + rewrite set_thread_other by exact Hne. apply Hpt.
Qed.

Lemma reachable_inv (w : World) (c : config) : reachable w c -> config_inv c.
Proof.
  induction 1 as [|c c' t _ IH Hstep].
  - apply initial_inv.
  - exact (step_keeps_inv IH Hstep).
Qed.

End ThreadInvariant.

Section Schedules.
Context {B : Backend}.

Lemma finished_done (p : pc) (r : result response) :
  finished p = Some r -> p = Done r.
Proof. destruct p; simpl; intros H; try discriminate H. now injection H as ->. Qed.

(** A move of a schedule is a step of its thread. *)
Lemma exec_step (m : move) (c c' : config) :
  exec m c = Some c' -> exists t, step t c c'.
Proof.
  destruct m as [t o|t]; unfold exec; intros H; exists t.
  - destruct (threads c t) eqn:E; try discriminate H.
    injection H as <-. now apply step_call.
  - destruct (finished (threads c t)) as [r|] eqn:F.
    { injection H as <-. apply step_return with (r := r). now apply finished_done. }
    destruct (acquire (threads c t)) as [p'|] eqn:A.
    { destruct (lock c) eqn:L; [discriminate H|].
      injection H as <-. now apply step_acquire. }
    destruct (release (threads c t)) as [p'|] eqn:R.
    { injection H as <-. now apply step_release. }
    destruct (local (threads c t) (shared c)) as [[p' s']|] eqn:L;
      [|discriminate H].
    injection H as <-. now apply step_local.
Qed.

Lemma exec_all_reachable (w : World) (ms : list move) :
  forall c c', reachable w c -> exec_all ms c = Some c' -> reachable w c'.
Proof.
  induction ms as [|m ms IH]; simpl; intros c c' Hc H.
  - now injection H as <-.
  - destruct (exec m c) as [c1|] eqn:E; [|discriminate H].
    destruct (exec_step _ _ E) as [t Hstep].
    eapply IH; [|exact H]. eapply reachable_step; eauto.
Qed.

Lemma closing_critical (h : string) (p : pc) :
  closing h p = true -> in_critical p = true.
Proof. destruct p; simpl; auto. Qed.

Lemma creating_cursor_critical (p : pc) :
  creating_cursor p = true -> in_critical p = true.
Proof. destruct p; simpl; auto. Qed.

(** C9. In every configuration that callers running the methods in any
    number of threads can reach, under any interleaving: while a thread
    is inside the locked block of [close_connection(h)] it holds the
    lock, no other thread is inside the locked block of [create_cursor]
    or of any other method, and no step of another thread changes the
    three dictionaries; a thread about to store a new cursor under [h]
    has [h] in [self.connections]; when the closing thread has deleted
    [h] from [self.connections], no handle starting with [h] is in
    [self.cursors]; and every cursor handle in [self.cursors] has its
    connection in [self.connections]. *)
Theorem close_connection_atomic (w : World) (c : config) :
  reachable w c ->
  (forall (t : nat) (h : string),
      closing h (threads c t) = true ->
      lock c = Some t /\
      forall t' : nat, t' <> t ->
        creating_cursor (threads c t') = false /\
        in_critical (threads c t') = false /\
        forall c' : config, step t' c c' -> self (shared c') = self (shared c)) /\
  (forall (t : nat) (h u : string) (cursor : Cursor),
      threads c t = CreateCur_store h u cursor ->
      Dict.mem h (connections (self (shared c))) = true) /\
  (forall (t : nat) (h : string),
      threads c t = CloseConn_del_params h ->
      Dict.mem h (connections (self (shared c))) = false /\
      forall k, String.prefix h k = true ->
                Dict.mem k (cursors (self (shared c))) = false) /\
  cursors_owned (self (shared c)).
Proof.
  intros Hreach. destruct (reachable_inv Hreach) as (Hlock & Hown & Hpt).
  split; [|split; [|split]]; auto.
  - intros t h Hclosing.
    pose proof (Hlock t (closing_critical _ _ Hclosing)) as Hheld.
    split; [exact Hheld|]. intros t' Hne.
    assert (Hout : in_critical (threads c t') = false).
    { destruct (in_critical (threads c t')) eqn:E; auto.
      apply Hlock in E. congruence. }
    split; [|split; [exact Hout|]].
    + destruct (creating_cursor (threads c t')) eqn:E; auto.
      apply creating_cursor_critical in E. congruence.
    + intros c' Hstep.
      inversion Hstep as [o Hidle | p' Hacq Hfree | p' Hrel | p' s' Hloc | r Hdone];
        subst c'; simpl; auto.
      eapply local_outside; eauto.
  - intros t h u cursor Hp. specialize (Hpt t). now rewrite Hp in Hpt.
  - intros t h Hp. specialize (Hpt t). now rewrite Hp in Hpt.
Qed.

End Schedules.

Lemma mid_close_reachable : reachable (B := Fake.backend) Fake.w0 Fake.mid_close.
Proof.
  apply exec_all_reachable with (ms := Fake.schedule)
                                (c := initial (B := Fake.backend) Fake.w0).
  - apply reachable_initial.
  - reflexivity.
Qed.

Lemma close_connection_atomic_witness :
  closing Fake.uuid_a (threads Fake.mid_close 1) = true /\
  lock Fake.mid_close = Some 1 /\
  creating_cursor (threads Fake.mid_close 0) = false /\
  (forall c' : config, step 0 Fake.mid_close c' ->
                       self (shared c') = self (shared Fake.mid_close)) /\
  cursors_owned (self (shared Fake.mid_close)).
Proof.
  destruct (@close_connection_atomic Fake.backend Fake.w0 Fake.mid_close
              mid_close_reachable) as (Hatomic & _ & _ & Hown).
  destruct (Hatomic 1 Fake.uuid_a eq_refl) as (Hheld & Hothers).
  destruct (Hothers 0 (O_S 0)) as (Hcreate & _ & Hframe).
  split; [reflexivity|]. split; [exact Hheld|]. split; [exact Hcreate|].
  split; [exact Hframe | exact Hown].
Defined.

(** ** One thread alone

    The threaded embedding against the sequential one. *)

Section Alone.
Context {B : Backend}.

Lemma solo_trans (p q r : pc) (s s1 s2 : State) :
  solo p s q s1 -> solo q s1 r s2 -> solo p s r s2.
Proof.
  induction 1; intros H2; eauto using solo.
Qed.

Lemma solo_close_cursors (h : string) (todo : list string) :
  forall s : State,
    solo (CloseConn_loop h todo) s
         (match fst (close_cursors todo s) with
          | Return _ => CloseConn_close h
          | Raise e => Unlock (Raise e)
          end)
         (snd (close_cursors todo s)).
Proof.
  induction todo as [|k rest IH]; intros s.
  - simpl. eapply solo_local; [reflexivity|]. apply solo_here.
  - simpl close_cursors. unfold_monad. simpl.
    destruct (Dict.get k (cursors (self s))) as [cur|] eqn:Hget; simpl.
    2:{ eapply solo_local; [simpl; rewrite Hget; reflexivity|]. apply solo_here. }
    destruct (cursor_close cur (world s)) as [[msg|u] w'] eqn:Hclose; simpl.
    { eapply solo_local; [simpl; rewrite Hget, Hclose; reflexivity|]. apply solo_here. }
    eapply solo_local; [simpl; rewrite Hget, Hclose; reflexivity|].
    rewrite (DictFacts.get_some_mem _ _ Hget). simpl.
    eapply solo_local;
      [simpl; rewrite (DictFacts.get_some_mem _ _ Hget); reflexivity|].
    apply IH.
Qed.

Lemma fmap_eq {A C} (f : A -> C) (m : M A) (s : State) :
  fmap f m s = match m s with
               | (Return a, s') => (Return (f a), s')
               | (Raise e, s') => (Raise e, s')
               end.
Proof. reflexivity. Qed.

Lemma close_connection_eq (h : string) (s : State) :
  close_connection h s =
  if Dict.mem h (connections (self s)) then
    match close_cursors
            (filter (fun cursor_id => String.prefix h cursor_id)
                    (Dict.keys (cursors (self s)))) s with
    | (Return _, s1) =>
        (m <- get_self ;;
         conn <- subscript (connections m) h ;;
         backend (conn_close conn) ;;
         m <- get_self ;;
         conns <- del_item (connections m) h ;;
         put_self {| connections := conns; cursors := cursors m;
                     connection_params := connection_params m |} ;;
         m <- get_self ;;
         ps <- del_item (connection_params m) h ;;
         put_self {| connections := connections m; cursors := cursors m;
                     connection_params := ps |} ;;
         ret true) s1
    | (Raise e, s1) => (Raise e, s1)
    end
  else (Return false, s).
Proof.
  unfold close_connection. unfold bind at 1. unfold get_self at 1.
  destruct (Dict.mem h (connections (self s))); reflexivity.
Qed.

Lemma solo_call (o : op) (s : State) :
  solo (entry o) s (Done (fst (call o s))) (snd (call o s)).
Proof.
  destruct o; simpl entry; unfold call.
  - unfold create_connection. unfold_monad. simpl.
    match goal with |- context [trino_connect ?a ?w] =>
      destruct (trino_connect a w) as [[msg|conn] w'] eqn:Hc end; simpl; solo_run.
  - rewrite fmap_eq, close_connection_eq.
    destruct (Dict.mem connection_id (connections (self s))) eqn:Hmem.
    2:{ simpl. solo_run. }
    eapply solo_acquire; [reflexivity|].
    eapply solo_local; [simpl; rewrite Hmem; reflexivity|].
    eapply solo_local; [reflexivity|].
    eapply solo_trans; [apply solo_close_cursors|].
    destruct (close_cursors _ s) as [[[]|e] s1]; simpl.
    2:{ solo_run. }
    unfold_monad. simpl.
    destruct (Dict.get connection_id (connections (self s1))) as [conn|] eqn:Hconn; simpl.
    2:{ solo_run. }
    destruct (conn_close conn (world s1)) as [[msg|u] w'] eqn:Hclose; simpl.
    { solo_run. }
    destruct (Dict.mem connection_id (connections (self s1))) eqn:Hmem1; simpl.
    2:{ solo_run. }
    destruct (Dict.mem connection_id (connection_params (self s1))) eqn:Hmem2; simpl;
      solo_run.
  - unfold create_cursor. unfold_monad. simpl.
    destruct (Dict.mem connection_id (connections (self s))) eqn:Hmem; simpl.
    2:{ solo_run. }
    destruct (DictFacts.mem_get _ _ Hmem) as [conn Hconn]. rewrite Hconn. simpl.
    destruct (conn_cursor conn (world s)) as [[msg|cur] w'] eqn:Hcur; simpl; solo_run.
  - unfold close_cursor. unfold_monad. simpl.
    destruct (Dict.mem cursor_id (cursors (self s))) eqn:Hmem; simpl.
    2:{ solo_run. }
    destruct (DictFacts.mem_get _ _ Hmem) as [cur Hcur]. rewrite Hcur. simpl.
    destruct (cursor_close cur (world s)) as [[msg|u] w'] eqn:Hclose; simpl.
    { solo_run. }
    rewrite Hmem. simpl. solo_run.
  - unfold execute_query. unfold_monad. simpl.
    destruct (Dict.mem cursor_id (cursors (self s))) eqn:Hmem; simpl.
    2:{ solo_run. }
    destruct (DictFacts.mem_get _ _ Hmem) as [cur Hcur]. rewrite Hcur. simpl.
    match goal with |- context [cursor_execute cur ?a ?w] =>
      destruct (cursor_execute cur a w) as [[msg|u] w'] eqn:Hex end; simpl; solo_run.
  - unfold fetch_results. unfold_monad. simpl.
    destruct (Dict.mem cursor_id (cursors (self s))) eqn:Hmem; simpl.
    2:{ solo_run. }
    destruct (DictFacts.mem_get _ _ Hmem) as [cur Hcur]. rewrite Hcur. simpl.
    match goal with |- context [cursor_fetchmany cur ?a ?w] =>
      destruct (cursor_fetchmany cur a w) as [[msg|rows] w'] eqn:Hf end; simpl; solo_run.
  - unfold get_connection_info. unfold_monad. simpl.
    destruct (Dict.mem connection_id (connections (self s))) eqn:Hmem; simpl.
    2:{ solo_run. }
    destruct (Dict.get connection_id (connection_params (self s))) eqn:Hp; simpl; solo_run.
Qed.

Lemma steps_trans (t : nat) (c1 c2 c3 : config) :
  steps t c1 c2 -> steps t c2 c3 -> steps t c1 c3.
Proof. induction 1; eauto using steps. Qed.

(** An uninterrupted run is a run of steps of the thread, which takes and
    gives back the lock on the way and leaves the other threads alone. *)
Lemma solo_steps (p q : pc) (s s' : State) :
  solo p s q s' ->
  forall (c : config) (t : nat),
    threads c t = p -> shared c = s ->
    lock c = (if in_critical p then Some t else None) ->
    exists c' : config,
      steps t c c' /\ threads c' t = q /\ shared c' = s' /\
      lock c' = (if in_critical q then Some t else None) /\
      forall t', t' <> t -> threads c' t' = threads c t'.
Proof.
  induction 1 as [p s | p p1 q s s' Hacq _ IH | p p1 q s s' Hrel _ IH
                 | p p1 q s s1 s' Hloc _ IH]; intros c t Hp Hs Hl.
  - exists c. subst. repeat split; auto. apply steps_none.
  - destruct (acquire_critical _ Hacq) as [Hout Hin].
    rewrite Hout in Hl.
    destruct (IH {| shared := shared c; lock := Some t;
                    threads := set_thread (threads c) t p1 |} t)
      as (c' & Hsteps & Hq & Hs' & Hl' & Hothers); simpl.
    + apply set_thread_same.
    + exact Hs.
    + now rewrite Hin.
    + exists c'. repeat split; auto.
      * eapply steps_more; [|exact Hsteps]. apply step_acquire; congruence.
      * intros t' Hne. rewrite (Hothers t' Hne). simpl.
        now apply set_thread_other.
  - destruct (release_critical _ Hrel) as [Hin Hout].
    destruct (IH {| shared := shared c; lock := None;
                    threads := set_thread (threads c) t p1 |} t)
      as (c' & Hsteps & Hq & Hs' & Hl' & Hothers); simpl.
    + apply set_thread_same.
    + exact Hs.
    + now rewrite Hout.
    + exists c'. repeat split; auto.
      * eapply steps_more; [|exact Hsteps]. apply step_release; congruence.
      * intros t' Hne. rewrite (Hothers t' Hne). simpl.
        now apply set_thread_other.
  - destruct (IH {| shared := s1; lock := lock c;
                    threads := set_thread (threads c) t p1 |} t)
      as (c' & Hsteps & Hq & Hs' & Hl' & Hothers); simpl.
    + apply set_thread_same.
    + reflexivity.
    + now rewrite (local_critical _ _ Hloc).
    + exists c'. repeat split; auto.
      * eapply steps_more; [|exact Hsteps]. apply step_local. congruence.
      * intros t' Hne. rewrite (Hothers t' Hne). simpl.
        now apply set_thread_other.
Qed.

(** X13. A thread that runs a call with nobody else moving gets through
    it, whatever the method and whatever it returns or raises: it ends
    with the result and in the state of the method of
    [ConnectionManager], the lock is free again and the other threads are
    where they were.  (The two embeddings agree.) *)
Theorem thread_alone_runs_method (o : op) (s : State) (t : nat) (ths : nat -> pc) :
  ths t = Idle ->
  exists c' : config,
    steps t {| shared := s; lock := None; threads := ths |} c' /\
    threads c' t = Done (fst (call o s)) /\
    shared c' = snd (call o s) /\
    lock c' = None /\
    forall t', t' <> t -> threads c' t' = ths t'.
Proof.
  intros Hidle.
  destruct (solo_steps (solo_call o s)
              {| shared := s; lock := None;
                 threads := set_thread ths t (entry o) |} t)
    as (c' & Hsteps & Hq & Hs' & Hl' & Hothers); simpl.
  - apply set_thread_same.
  - reflexivity.
  - now destruct o.
  - exists c'. repeat split; auto.
    + eapply steps_more; [|exact Hsteps].
      apply (step_call t {| shared := s; lock := None; threads := ths |} o Hidle).
    + intros t' Hne. rewrite (Hothers t' Hne). simpl. now apply set_thread_other.
Qed.

End Alone.

(** ** More on the methods, one caller *)

Section DictMore.
Variable V : Type.
Implicit Types (d : Dict.t V) (k : string).

Lemma keys_nodup_set k (v : V) d :
  NoDup (Dict.keys d) -> NoDup (Dict.keys (Dict.set k v d)).
Proof.
  intros H. rewrite DictFacts.keys_set.
  destruct (Dict.mem k d) eqn:E; auto.
  apply NoDup_app; auto.
  - repeat constructor. intros [].
  - intros x Hx [<-|[]]. apply DictFacts.mem_keys in Hx. congruence.
Qed.

Lemma keys_nodup_del k d :
  NoDup (Dict.keys d) -> NoDup (Dict.keys (Dict.del k d)).
Proof. intros H. rewrite DictFacts.keys_del. now apply NoDup_filter. Qed.

Lemma del_all_get (l : list string) :
  forall d k, ~ In k l ->
    Dict.get k (fold_left (fun d k => Dict.del k d) l d) = Dict.get k d.
Proof.
  induction l as [|k0 l IH]; intros d k Hk; simpl; auto.
  rewrite IH by (intros H; apply Hk; now right).
  apply DictFacts.get_del_neq. intros ->. apply Hk. now left.
Qed.

Lemma del_all_keys_nodup (l : list string) :
  forall d, NoDup (Dict.keys d) ->
            NoDup (Dict.keys (fold_left (fun d k => Dict.del k d) l d)).
Proof.
  induction l as [|k0 l IH]; intros d H; simpl; auto using keys_nodup_del.
Qed.

(** Deleting a list of keys one by one is one filter. *)
Lemma del_all_filter (l : list string) :
  forall d,
    fold_left (fun d k => Dict.del k d) l d =
    filter (fun kv => negb (existsb (String.eqb (fst kv)) l)) d.
Proof.
  induction l as [|k0 l IH]; intros d; simpl.
  - induction d as [|kv d IHd]; simpl; congruence.
  - rewrite IH. unfold Dict.del.
    induction d as [|kv d IHd]; simpl; auto.
    rewrite (String.eqb_sym (fst kv) k0).
    destruct (String.eqb k0 (fst kv)); simpl; auto.
    destruct (existsb (String.eqb (fst kv)) l); simpl; congruence.
Qed.

Lemma filter_ext_dict (f g : string * V -> bool) d :
  (forall kv, In kv d -> f kv = g kv) -> filter f d = filter g d.
Proof.
  induction d as [|kv d IH]; intros H; simpl; auto.
  rewrite (H kv) by now left. rewrite IH; auto.
  intros kv' Hin. apply H. now right.
Qed.

(** Deleting every key that starts with [h] leaves [cursors_outside h]. *)
Lemma del_prefixed h d :
  fold_left (fun d k => Dict.del k d)
            (filter (fun k => String.prefix h k) (Dict.keys d)) d
  = cursors_outside h d.
Proof.
  rewrite del_all_filter. unfold cursors_outside. apply filter_ext_dict.
  intros [k v] Hin. simpl. f_equal.
  destruct (String.prefix h k) eqn:E.
  - apply existsb_exists. exists k. split; [|apply String.eqb_refl].
    apply filter_In. split; auto. unfold Dict.keys.
    change k with (fst (k, v)). now apply in_map.
  - destruct (existsb (String.eqb k) _) eqn:E'; auto.
    apply existsb_exists in E' as (k' & Hk' & Heq).
    apply String.eqb_eq in Heq. subst k'. apply filter_In in Hk' as [_ Hk'].
    congruence.
Qed.

Lemma get_outside h d k :
  String.prefix h k = false -> Dict.get k (cursors_outside h d) = Dict.get k d.
Proof.
  intros Hk. unfold cursors_outside.
  induction d as [|[k' v] d IH]; simpl; auto.
  destruct (String.prefix h k') eqn:E; simpl.
  - destruct (String.eqb k k') eqn:E'; auto.
    apply String.eqb_eq in E'. congruence.
  - now rewrite IH.
Qed.

Lemma mem_outside_prefixed h d k :
  String.prefix h k = true -> Dict.mem k (cursors_outside h d) = false.
Proof.
  intros Hk. unfold Dict.mem, cursors_outside.
  induction d as [|[k' v] d IH]; simpl; auto.
  destruct (String.prefix h k') eqn:E; simpl; auto.
  destruct (String.eqb k k') eqn:E'; auto.
  apply String.eqb_eq in E'. congruence.
Qed.

End DictMore.

Section CascadeFacts.
Context {B : Backend}.

(** The cascade loop deletes an initial part of its list, all of it when
    it runs to its end, and writes nothing else. *)
Lemma close_cursors_exact (l : list string) :
  forall (s s' : State) (r : result unit),
    close_cursors l s = (r, s') ->
    exists closed rest,
      l = closed ++ rest /\
      (r = Return tt -> rest = []) /\
      self s' = {| connections := connections (self s);
                   cursors := fold_left (fun d k => Dict.del k d) closed
                                        (cursors (self s));
                   connection_params := connection_params (self s) |}.
Proof.
  induction l as [|k0 l IH]; intros s s' r H.
  - simpl in H. unfold_monad. inv_pair H. exists [], []. simpl.
    repeat split; auto. now rewrite manager_eta.
  - simpl in H. unfold_monad. simpl in H.
    destruct (Dict.get k0 (cursors (self s))) as [cur|] eqn:Hget.
    2:{ inv_pair H. exists [], (k0 :: l). simpl. repeat split; auto.
        - discriminate.
        - now rewrite manager_eta. }
    simpl in H.
    destruct (cursor_close cur (world s)) as [[msg|u] w1] eqn:Hclose; simpl in H.
    { inv_pair H. exists [], (k0 :: l). simpl. repeat split; auto.
      - discriminate.
      - now rewrite manager_eta. }
    rewrite (DictFacts.get_some_mem _ _ Hget) in H. simpl in H.
    apply IH in H as (closed & rest & -> & Hrest & Hself). simpl in Hself.
    exists (k0 :: closed), rest. repeat split; auto.
Qed.

(** On a list of distinct present keys the loop raises nothing of its
    own: it ends, or it passes on what a backend [close] raised. *)
Lemma close_cursors_outcome (l : list string) :
  forall (s s' : State) (r : result unit),
    NoDup l ->
    (forall k, In k l -> Dict.mem k (cursors (self s)) = true) ->
    close_cursors l s = (r, s') ->
    r = Return tt \/ exists msg, r = Raise (BackendError msg).
Proof.
  induction l as [|k0 l IH]; intros s s' r Hnd Hin H.
  - simpl in H. unfold_monad. inv_pair H. now left.
  - simpl in H. unfold_monad. simpl in H.
    destruct (DictFacts.mem_get _ _ (Hin k0 (or_introl eq_refl))) as [cur Hget].
    rewrite Hget in H. simpl in H.
    destruct (cursor_close cur (world s)) as [[msg|u] w1] eqn:Hclose; simpl in H.
    { inv_pair H. right. eauto. }
    rewrite (DictFacts.get_some_mem _ _ Hget) in H. simpl in H.
    inversion Hnd as [|? ? Hnotin Hnd']; subst.
    apply IH in H; auto. simpl.
    intros k Hk. rewrite DictFacts.mem_del_neq.
    + apply Hin. now right.
    + intros ->. contradiction.
Qed.

(** With closes that succeed the loop runs to its end. *)
Lemma close_cursors_succeeds (l : list string) :
  closes_succeed B ->
  forall (s s' : State) (r : result unit),
    NoDup l ->
    (forall k, In k l -> Dict.mem k (cursors (self s)) = true) ->
    close_cursors l s = (r, s') -> r = Return tt.
Proof.
  intros [Hcur _]. induction l as [|k0 l IH]; intros s s' r Hnd Hin H.
  - simpl in H. unfold_monad. now inv_pair H.
  - simpl in H. unfold_monad. simpl in H.
    destruct (DictFacts.mem_get _ _ (Hin k0 (or_introl eq_refl))) as [cur Hget].
    rewrite Hget in H. simpl in H.
    destruct (Hcur cur (world s)) as [w1 Hclose]. rewrite Hclose in H. simpl in H.
    rewrite (DictFacts.get_some_mem _ _ Hget) in H. simpl in H.
    inversion Hnd as [|? ? Hnotin Hnd']; subst.
    apply IH in H; auto. simpl.
    intros k Hk. rewrite DictFacts.mem_del_neq.
    + apply Hin. now right.
    + intros ->. contradiction.
Qed.

Lemma close_cursor_exact (s s' : State) (k : string) (r : result bool) :
  close_cursor k s = (r, s') ->
  (self s' = self s /\ r <> Return true) \/
  (r = Return true /\
   self s' = {| connections := connections (self s);
                cursors := Dict.del k (cursors (self s));
                connection_params := connection_params (self s) |}).
Proof.
  unfold close_cursor. unfold_monad. simpl.
  destruct (Dict.mem k (cursors (self s))) eqn:Hmem; simpl.
  2:{ intros H. inv_pair H. left. split; auto. discriminate. }
  destruct (DictFacts.mem_get _ _ Hmem) as [cur Hcur]. rewrite Hcur. simpl.
  destruct (cursor_close cur (world s)) as [[msg|u] w']; simpl.
  { intros H. inv_pair H. left. split; auto. discriminate. }
  rewrite Hmem. simpl. intros H. inv_pair H. right. auto.
Qed.

(** The cursor dictionary never holds a handle twice. *)
Lemma call_keeps_nodup (o : op) (s s' : State) (r : result response) :
  NoDup (Dict.keys (cursors (self s))) -> call o s = (r, s') ->
  NoDup (Dict.keys (cursors (self s'))).
Proof.
  intros Hnd Hcall.
  destruct o; simpl in Hcall; apply fmap_inv in Hcall as (r0 & Hcall & _).
  - apply create_connection_frame in Hcall as (-> & _). exact Hnd.
  - rewrite close_connection_eq in Hcall.
    destruct (Dict.mem connection_id (connections (self s))).
    2:{ now injection Hcall as _ <-. }
    destruct (close_cursors _ s) as [r1 s1] eqn:Hloop.
    apply close_cursors_exact in Hloop as (closed & rest & _ & _ & Hself).
    assert (Hnd1 : NoDup (Dict.keys (cursors (self s1)))).
    { rewrite Hself. simpl. now apply del_all_keys_nodup. }
    destruct r1 as [[]|e].
    2:{ now injection Hcall as _ <-. }
    revert Hcall. unfold_monad. simpl.
    destruct (Dict.get connection_id (connections (self s1))); simpl.
    2:{ intros H. now inv_pair H. }
    destruct (conn_close _ _) as [[msg|u] w2]; simpl.
    { intros H. now inv_pair H. }
    destruct (Dict.mem connection_id (connections (self s1))); simpl.
    2:{ intros H. now inv_pair H. }
    destruct (Dict.mem connection_id (connection_params (self s1))); simpl;
      intros H; now inv_pair H.
  - apply create_cursor_frame in Hcall as (_ & _ & [(-> & _)|(_ & _ & cur & ->)]); auto.
    now apply keys_nodup_set.
  - apply close_cursor_exact in Hcall as [(-> & _)|(_ & ->)]; auto.
    simpl. now apply keys_nodup_del.
  - apply execute_query_frame in Hcall. now rewrite Hcall.
  - apply fetch_results_frame in Hcall. now rewrite Hcall.
  - apply get_connection_info_frame in Hcall. now subst.
Qed.

Lemma run_keeps_nodup (ops : list op) (w : World) :
  NoDup (Dict.keys (cursors (self (run ops (init w))))).
Proof.
  apply (run_invariant (fun m => NoDup (Dict.keys (cursors m)))).
  - intros; eapply call_keeps_nodup; eauto.
  - constructor.
Qed.

End CascadeFacts.

Lemma prefix_same_length (a b x : string) :
  String.length a = String.length b ->
  String.prefix a (b ++ x) = true -> a = b.
Proof.
  revert b. induction a as [|c a IH]; intros [|c' b] Hlen H; simpl in *;
    try discriminate; auto.
  destruct (ascii_dec c c') as [->|]; [|discriminate].
  f_equal. apply IH; auto.
Qed.

Section CloseConnection.
Context {B : Backend}.

(** Which cursors [close_connection] deletes, whatever its outcome: an
    initial part of the handles that start with the connection handle,
    all of them when it returns [True]. *)
Lemma close_connection_cursors (s s' : State) (h : string) (r : result bool) :
  close_connection h s = (r, s') ->
  exists closed rest,
    filter (fun k => String.prefix h k) (Dict.keys (cursors (self s))) = closed ++ rest /\
    (r = Return true -> rest = []) /\
    cursors (self s') = fold_left (fun d k => Dict.del k d) closed (cursors (self s)).
Proof.
  rewrite close_connection_eq.
  destruct (Dict.mem h (connections (self s))).
  2:{ intros H. injection H as <- <-. exists [], (filter (fun k => String.prefix h k)
                                                  (Dict.keys (cursors (self s)))).
      repeat split; auto. discriminate. }
  destruct (close_cursors _ s) as [r1 s1] eqn:Hloop.
  apply close_cursors_exact in Hloop as (closed & rest & Hl & Hrest & Hself).
  assert (Hcur : cursors (self s1) =
                 fold_left (fun d k => Dict.del k d) closed (cursors (self s)))
    by now rewrite Hself.
  destruct r1 as [[]|e].
  2:{ intros H. injection H as <- <-. exists closed, rest. repeat split; auto.
      discriminate. }
  specialize (Hrest eq_refl). exists closed, rest. split; [exact Hl|].
  split; [auto|]. revert H. unfold_monad. simpl.
  destruct (Dict.get h (connections (self s1))); simpl.
  2:{ intros H. now inv_pair H. }
  destruct (conn_close _ _) as [[msg|u] w2]; simpl.
  { intros H. now inv_pair H. }
  destruct (Dict.mem h (connections (self s1))); simpl.
  2:{ intros H. now inv_pair H. }
  destruct (Dict.mem h (connection_params (self s1))); simpl;
    intros H; now inv_pair H.
Qed.

(** On a well-formed registry, what [close_connection] raises is what a
    backend [close] raised. *)
Lemma close_connection_raises (s s' : State) (h : string) (e : exn) :
  NoDup (Dict.keys (cursors (self s))) ->
  keys_in_step (self s) ->
  close_connection h s = (Raise e, s') ->
  exists msg, e = BackendError msg.
Proof.
  intros Hnd Hstep. rewrite close_connection_eq.
  destruct (Dict.mem h (connections (self s))) eqn:Hmem; [|discriminate].
  destruct (close_cursors _ s) as [r1 s1] eqn:Hloop.
  pose proof Hloop as Hexact.
  apply close_cursors_exact in Hexact as (closed & rest & _ & _ & Hself).
  apply close_cursors_outcome in Hloop.
  2:{ now apply NoDup_filter. }
  2:{ intros k Hk. apply filter_In in Hk as [Hk _]. now apply DictFacts.mem_keys. }
  destruct Hloop as [->|(msg & ->)].
  2:{ intros H. injection H as <- _. eauto. }
  unfold_monad. simpl. rewrite Hself. simpl.
  destruct (DictFacts.mem_get _ _ Hmem) as [conn Hconn]. rewrite Hconn. simpl.
  destruct (conn_close conn (world s1)) as [[msg|u] w2]; simpl.
  { intros H. injection H as <- _. eauto. }
  rewrite Hself. simpl. rewrite Hmem. unfold ret, raise. simpl.
  rewrite <- (DictFacts.mem_same_keys _ _ h Hstep), Hmem. simpl. discriminate.
Qed.

(** On a live handle [close_connection] does not return [False]. *)
Lemma close_connection_live_not_false (s s' : State) (h : string) :
  Dict.mem h (connections (self s)) = true ->
  close_connection h s = (Return false, s') -> False.
Proof.
  intros Hmem. rewrite close_connection_eq, Hmem.
  destruct (close_cursors _ s) as [[[]|e] s1]; [|discriminate].
  unfold_monad. simpl.
  destruct (Dict.get h (connections (self s1))); simpl; [|discriminate].
  destruct (conn_close _ _) as [[msg|u] w2]; simpl; [discriminate|].
  unfold ret, raise.
  destruct (Dict.mem h (connections (self s1))); simpl; [|discriminate].
  destruct (Dict.mem h (connection_params (self s1))); simpl; discriminate.
Qed.

(** X1. On a registry reached from the empty one, with a backend whose
    [close] calls return normally, [close_connection] on a live handle
    returns [True]: the handle leaves [self.connections] and
    [self.connection_params], and [self.cursors] keeps exactly the
    cursors whose handle does not start with it, in their order. *)
Theorem close_connection_succeeds (ops : list op) (w : World) (h : string) :
  closes_succeed B ->
  Dict.mem h (connections (self (run ops (init w)))) = true ->
  exists w' : World,
    close_connection h (run ops (init w)) =
    (Return true,
     {| self := {| connections := Dict.del h (connections (self (run ops (init w))));
                   cursors := cursors_outside h (cursors (self (run ops (init w))));
                   connection_params :=
                     Dict.del h (connection_params (self (run ops (init w)))) |};
        world := w' |}).
Proof.
  intros Hok Hmem. set (s := run ops (init w)) in *.
  assert (Hnd : NoDup (Dict.keys (cursors (self s)))) by apply run_keeps_nodup.
  assert (Hstep : keys_in_step (self s)).
  { apply run_invariant; [intros; eapply call_keeps_in_step; eauto | apply init_in_step]. }
  rewrite close_connection_eq, Hmem.
  destruct (close_cursors _ s) as [r1 s1] eqn:Hloop.
  pose proof Hloop as Hexact.
  apply close_cursors_exact in Hexact as (closed & rest & Hl & Hrest & Hself).
  apply close_cursors_succeeds in Hloop; auto.
  2:{ now apply NoDup_filter. }
  2:{ intros k Hk. apply filter_In in Hk as [Hk _]. now apply DictFacts.mem_keys. }
  subst r1. rewrite (Hrest eq_refl), app_nil_r in Hl. subst closed.
  rewrite del_prefixed in Hself.
  unfold_monad. simpl. rewrite Hself. simpl.
  destruct (DictFacts.mem_get _ _ Hmem) as [conn Hconn]. rewrite Hconn. simpl.
  destruct Hok as [_ Hconnclose].
  destruct (Hconnclose conn (world s1)) as [w2 Hclose]. rewrite Hclose. simpl.
  rewrite Hself. simpl. rewrite Hmem. unfold ret, raise. simpl.
  rewrite <- (DictFacts.mem_same_keys _ _ h Hstep), Hmem. simpl.
  exists w2. reflexivity.
Qed.

(** X2. Closing a connection leaves the others alone: the entries of
    every other handle in [self.connections] and
    [self.connection_params] are as before, and so is every cursor whose
    handle does not start with the closed handle, in particular every
    cursor opened under another connection when the handles are uuid
    strings.  This holds whatever the call returns or raises. *)
Theorem close_connection_spares_others (s s' : State) (h : string) (r : result bool) :
  close_connection h s = (r, s') ->
  (forall c : string, c <> h ->
      Dict.get c (connections (self s')) = Dict.get c (connections (self s)) /\
      Dict.get c (connection_params (self s')) = Dict.get c (connection_params (self s))) /\
  (forall k : string, String.prefix h k = false ->
      Dict.get k (cursors (self s')) = Dict.get k (cursors (self s))) /\
  (forall c u : string, is_uuid_str h = true -> is_uuid_str c = true -> c <> h ->
      Dict.get (c ++ "_" ++ u)%string (cursors (self s')) =
      Dict.get (c ++ "_" ++ u)%string (cursors (self s))).
Proof.
  intros H.
  assert (Hcursors : forall k, String.prefix h k = false ->
            Dict.get k (cursors (self s')) = Dict.get k (cursors (self s))).
  { intros k Hk.
    destruct (close_connection_cursors _ _ H) as (closed & rest & Hl & _ & ->).
    apply del_all_get. intros Hin.
    assert (Hin' : In k (closed ++ rest)) by (apply in_or_app; auto).
    rewrite <- Hl in Hin'. apply filter_In in Hin' as [_ Hp]. congruence. }
  split; [|split]; auto.
  - intros c Hne.
    apply close_connection_frame in H as (_ & [(-> & -> & _)|(_ & -> & _ & Hp)]); auto.
    split; [apply DictFacts.get_del_neq; congruence|].
    destruct Hp as [(_ & ->)|(_ & -> & _)]; auto.
    apply DictFacts.get_del_neq. congruence.
  - intros c u Hh Hc Hne. apply Hcursors.
    destruct (String.prefix h (c ++ "_" ++ u)) eqn:E; auto.
    apply prefix_same_length in E; [congruence|].
    apply is_uuid_str_length in Hh. apply is_uuid_str_length in Hc. congruence.
Qed.

(** X3. On a registry reached from the empty one [close_connection] has
    three outcomes.  An unknown handle gives [False] and no change.  A
    live handle gives [True], or raises what a backend [close] raised
    (never the driver's own error, never a [KeyError]); when it raises,
    the handle is still in [self.connections] and
    [self.connection_params], and the only cursors gone are ones whose
    handle starts with it. *)
Theorem close_connection_outcomes (ops : list op) (w : World) (h : string)
    (r : result bool) (s' : State) :
  close_connection h (run ops (init w)) = (r, s') ->
  (Dict.mem h (connections (self (run ops (init w)))) = false /\
   r = Return false /\ s' = run ops (init w)) \/
  (Dict.mem h (connections (self (run ops (init w)))) = true /\
   r = Return true /\
   Dict.mem h (connections (self s')) = false /\
   Dict.mem h (connection_params (self s')) = false) \/
  (Dict.mem h (connections (self (run ops (init w)))) = true /\
   (exists msg : string, r = Raise (BackendError msg)) /\
   connections (self s') = connections (self (run ops (init w))) /\
   connection_params (self s') = connection_params (self (run ops (init w))) /\
   forall k : string, String.prefix h k = false ->
     Dict.get k (cursors (self s')) = Dict.get k (cursors (self (run ops (init w))))).
Proof.
  set (s := run ops (init w)). intros H.
  assert (Hnd : NoDup (Dict.keys (cursors (self s)))) by apply run_keeps_nodup.
  assert (Hstep : keys_in_step (self s)).
  { apply run_invariant; [intros; eapply call_keeps_in_step; eauto | apply init_in_step]. }
  destruct (Dict.mem h (connections (self s))) eqn:Hmem.
  2:{ left. revert H. unfold close_connection, bind, get_self, ret. rewrite Hmem.
      intros H. now injection H as <- <-. }
  right.
  assert (Hcursors : forall k, String.prefix h k = false ->
            Dict.get k (cursors (self s')) = Dict.get k (cursors (self s))).
  { intros k Hk.
    destruct (close_connection_cursors _ _ H) as (closed & rest & Hl & _ & ->).
    apply del_all_get. intros Hin.
    assert (Hin' : In k (closed ++ rest)) by (apply in_or_app; auto).
    rewrite <- Hl in Hin'. apply filter_In in Hin' as [_ Hp]. congruence. }
  destruct r as [[|]|e].
  - left. apply close_connection_frame in H
      as (_ & [(_ & _ & Hr)|(_ & Hc & _ & [(_ & Hp)|(Hr & _)])]); try congruence.
    repeat split; auto.
    + rewrite Hc. apply DictFacts.mem_del_eq.
    + rewrite Hp. apply DictFacts.mem_del_eq.
  - exfalso. eapply close_connection_live_not_false; eauto.
  - right. destruct (@close_connection_raises s s' h e Hnd Hstep H) as [msg ->].
    apply close_connection_frame in H
      as (_ & [(Hc & Hp & _)|(_ & _ & _ & [(Hr & _)|(Hr & _)])]); try discriminate.
    repeat split; eauto.
Qed.

End CloseConnection.

Section AfterClose.
Context {B : Backend}.

(** X4. After [close_connection(h)] has returned [True], the handle and
    every cursor handle opened under it are unknown to all methods:
    [create_cursor] and [get_connection_info] on [h], [execute_query] and
    [fetch_results] on [h_<uuid>] raise the "does not exist" error, and a
    second [close_connection(h)] returns [False]; none of them changes
    the state. *)
Theorem closed_connection_is_unknown (s s' : State) (h : string) :
  close_connection h s = (Return true, s') ->
  close_connection h s' = (Return false, s') /\
  get_connection_info h s' =
    (Raise (TrinoODBCError ("Connection " ++ h ++ " does not exist")), s') /\
  forall (u query : string) (parameters : option (list pyval)) (max_rows : Z),
    create_cursor h u s' =
      (Raise (TrinoODBCError ("Connection " ++ h ++ " does not exist")), s') /\
    execute_query (h ++ "_" ++ u)%string query parameters s' =
      (Raise (TrinoODBCError ("Cursor " ++ (h ++ "_" ++ u) ++ " does not exist")), s') /\
    fetch_results (h ++ "_" ++ u)%string max_rows s' =
      (Raise (TrinoODBCError ("Cursor " ++ (h ++ "_" ++ u) ++ " does not exist")), s').
Proof.
  intros H.
  apply close_connection_frame in H as (_ & [(_ & _ & Hr)|(_ & Hc & Hgone & _)]);
    [congruence|].
  assert (Hconn : Dict.mem h (connections (self s')) = false)
    by (rewrite Hc; apply DictFacts.mem_del_eq).
  split; [|split].
  - unfold close_connection, bind, get_self, ret. now rewrite Hconn.
  - unfold get_connection_info, bind, get_self, raise. now rewrite Hconn.
  - intros u query parameters max_rows.
    assert (Hcur : Dict.mem (h ++ "_" ++ u)%string (cursors (self s')) = false)
      by (apply Hgone, prefix_append).
    split; [|split].
    + unfold create_cursor, bind, get_self, raise. now rewrite Hconn.
    + unfold execute_query, bind, get_self, raise. now rewrite Hcur.
    + unfold fetch_results, bind, get_self, raise. now rewrite Hcur.
Qed.

(** X5. Opening a cursor and closing it again: on a live connection
    whose backend session hands out a cursor, [create_cursor] returns
    [h_<uuid4>] and registers that cursor under it; [close_cursor] on the
    handle then returns [True] when the backend's [close] does, and
    afterwards the handle is gone, every other cursor handle maps to what
    it mapped to before the two calls, and the connection dictionaries
    were never written. *)
Theorem cursor_open_close_round_trip (s : State) (h u : string) (conn : Conn)
    (cursor : Cursor) (w1 w2 : World) :
  Dict.get h (connections (self s)) = Some conn ->
  conn_cursor conn (world s) = (inr cursor, w1) ->
  cursor_close cursor w1 = (inr tt, w2) ->
  exists s1 s2 : State,
    create_cursor h u s = (Return (h ++ "_" ++ u)%string, s1) /\
    Dict.get (h ++ "_" ++ u)%string (cursors (self s1)) = Some cursor /\
    close_cursor (h ++ "_" ++ u)%string s1 = (Return true, s2) /\
    world s2 = w2 /\
    connections (self s2) = connections (self s) /\
    connection_params (self s2) = connection_params (self s) /\
    Dict.mem (h ++ "_" ++ u)%string (cursors (self s2)) = false /\
    forall k : string, k <> (h ++ "_" ++ u)%string ->
      Dict.get k (cursors (self s2)) = Dict.get k (cursors (self s)).
Proof.
  intros Hconn Hcursor Hclose.
  pose proof (DictFacts.get_some_mem _ _ Hconn) as Hmem.
  eexists. eexists. split; [|split; [|split]].
  - unfold create_cursor. unfold_monad. simpl. rewrite Hmem. simpl.
    rewrite Hconn. simpl. rewrite Hcursor. simpl. reflexivity.
  - simpl. apply DictFacts.get_set_eq.
  - unfold close_cursor. unfold_monad. simpl.
    rewrite DictFacts.mem_set_eq. simpl. rewrite DictFacts.get_set_eq. simpl.
    rewrite Hclose. simpl. unfold ret, raise.
    rewrite DictFacts.mem_set_eq. simpl. reflexivity.
  - simpl. repeat split; auto.
    + apply DictFacts.mem_del_eq.
    + intros k Hk.
      rewrite DictFacts.get_del_neq by congruence.
      apply DictFacts.get_set_neq. congruence.
Qed.

(** X19. [close_cursor] has three outcomes.  An unknown handle gives
    [False] and no change.  A registered one gives [True] with exactly
    that handle removed, or, when the backend's [close] raises, passes
    that exception on unwrapped and leaves the cursor registered, so the
    close can be tried again. *)
Theorem close_cursor_outcomes (s s' : State) (k : string) (r : result bool) :
  close_cursor k s = (r, s') ->
  (Dict.mem k (cursors (self s)) = false /\ r = Return false /\ s' = s) \/
  (exists cursor : Cursor,
      Dict.get k (cursors (self s)) = Some cursor /\
      connections (self s') = connections (self s) /\
      connection_params (self s') = connection_params (self s) /\
      ((r = Return true /\
        fst (cursor_close cursor (world s)) = inr tt /\
        Dict.mem k (cursors (self s')) = false /\
        forall k', k' <> k ->
          Dict.get k' (cursors (self s')) = Dict.get k' (cursors (self s))) \/
       (exists msg : string,
           r = Raise (BackendError msg) /\
           fst (cursor_close cursor (world s)) = inl msg /\
           cursors (self s') = cursors (self s)))).
Proof.
  unfold close_cursor. unfold_monad. simpl.
  destruct (Dict.mem k (cursors (self s))) eqn:Hmem; simpl.
  2:{ intros H. inv_pair H. left. repeat split; auto. }
  destruct (DictFacts.mem_get _ _ Hmem) as [cur Hcur]. rewrite Hcur. simpl.
  destruct (cursor_close cur (world s)) as [[msg|[]] w'] eqn:Hclose; simpl.
  { intros H. inv_pair H. right. exists cur.
    split; [reflexivity|]. split; [reflexivity|]. split; [reflexivity|].
    right. exists msg. repeat split. now rewrite Hclose. }
  unfold ret, raise. rewrite Hmem. simpl. intros H. inv_pair H.
  right. exists cur.
  split; [reflexivity|]. split; [reflexivity|]. split; [reflexivity|].
  left. repeat split.
  - now rewrite Hclose.
  - apply DictFacts.mem_del_eq.
  - intros k' Hne. apply DictFacts.get_del_neq. congruence.
Qed.

End AfterClose.

Section Results.
Context {B : Backend}.

(** X6. What a successful [execute_query] reports: "success" is true,
    "rowcount" is the backend cursor's [rowcount] when that is not
    negative and -1 otherwise, so never below -1, and "columns" has one
    entry per entry of the cursor's [description], none when the
    description is [None] or empty. *)
Theorem execute_result_shape (s s' : State) (cursor_id query : string)
    (parameters : option (list pyval)) (r : ExecuteResult) :
  execute_query cursor_id query parameters s = (Return r, s') ->
  exists cursor : Cursor,
    Dict.get cursor_id (cursors (self s)) = Some cursor /\
    exec_success r = true /\
    (-1 <= exec_rowcount r)%Z /\
    ((0 <= cursor_rowcount cursor (world s'))%Z ->
       exec_rowcount r = cursor_rowcount cursor (world s')) /\
    ((cursor_rowcount cursor (world s') < 0)%Z -> exec_rowcount r = (-1)%Z) /\
    exec_columns r = match cursor_description cursor (world s') with
                     | Some columns => columns
                     | None => []
                     end.
Proof.
  intros H.
  destruct (Dict.get cursor_id (cursors (self s))) as [cursor|] eqn:Hget.
  2:{ revert H. unfold execute_query, Dict.mem. unfold_monad. rewrite Hget.
      simpl. discriminate. }
  rewrite execute_query_known with (cursor := cursor) in H by exact Hget.
  destruct (cursor_execute _ _ _) as [[msg|u] w']; [discriminate|].
  injection H as <- <-. exists cursor. simpl.
  split; [reflexivity|]. split; [reflexivity|].
  destruct (cursor_rowcount cursor w' >=? 0)%Z eqn:E.
  - apply Z.geb_le in E. repeat split; try lia.
    now destruct (cursor_description cursor w') as [[|c cs]|].
  - rewrite Z.geb_leb in E. apply Z.leb_gt in E. repeat split; try lia.
    now destruct (cursor_description cursor w') as [[|c cs]|].
Qed.

(** The value [dict(zip(names, row))] gives a name: the cell at the last
    position, within the row, that carries the name. *)
Lemma dict_of_zip_get (names : list string) (row : list pyval) :
  forall (i : nat) (n : string) (v : pyval),
    nth_error names i = Some n ->
    nth_error row i = Some v ->
    (forall j, i < j -> j < length row -> nth_error names j <> Some n) ->
    Dict.get n (dict_of_zip names row) = Some v.
Proof.
  unfold dict_of_zip. generalize (@Dict.empty pyval) as d.
  revert row. induction names as [|n0 names IH]; intros row d i n v Hn Hv Hlast.
  - destruct i; discriminate.
  - destruct row as [|v0 row]; [destruct i; discriminate|]. simpl.
    destruct i as [|i].
    + simpl in Hn, Hv. injection Hn as ->. injection Hv as ->.
      assert (Hkeep : forall (l : list (string * pyval)) d0,
                 (forall nv, In nv l -> fst nv <> n) ->
                 Dict.get n (fold_left (fun d nv => Dict.set (fst nv) (snd nv) d) l d0)
                 = Dict.get n d0).
      { induction l as [|nv l IHl]; intros d0 Hl; simpl; auto.
        rewrite IHl by (intros nv' Hin; apply Hl; now right).
        apply DictFacts.get_set_neq. apply Hl. now left. }
      rewrite Hkeep.
      * apply DictFacts.get_set_eq.
      * intros [n' v'] Hin Heq. simpl in Heq. subst n'.
        apply In_nth_error in Hin as [j Hj].
        assert (Hjn : nth_error names j = Some n).
        { revert Hj. clear. revert row j.
          induction names as [|a names IHn]; intros [|b row] [|j] H;
            simpl in *; try discriminate.
          - now injection H as -> _.
          - eauto. }
        assert (Hjlen : j < length row).
        { assert (Hlt : j < length (combine names row))
            by (apply nth_error_Some; congruence).
          rewrite length_combine in Hlt. lia. }
        apply (Hlast (S j)); simpl; auto; lia.
    + simpl in Hn, Hv. apply IH with (i := i); auto.
      intros j Hij Hj. apply (Hlast (S j)); simpl; lia.
Qed.

Lemma dict_of_zip_keys (names : list string) (row : list pyval) (n : string) :
  Dict.mem n (dict_of_zip names row) = true -> In n (firstn (length row) names).
Proof.
  unfold dict_of_zip.
  assert (Hgen : forall (l : list (string * pyval)) d0,
             Dict.mem n (fold_left (fun d nv => Dict.set (fst nv) (snd nv) d) l d0) = true ->
             Dict.mem n d0 = true \/ In n (map fst l)).
  { induction l as [|nv l IHl]; intros d0 H; simpl in *; auto.
    apply IHl in H as [H|H]; auto.
    destruct (string_dec (fst nv) n) as [<-|Hne]; auto.
    rewrite DictFacts.mem_set_neq in H by exact Hne. auto. }
  intros H. apply Hgen in H as [H|H]; [discriminate|].
  revert H. clear. revert row.
  induction names as [|a names IH]; intros [|b row] H; simpl in *; try contradiction.
  destruct H as [->|H]; auto.
Qed.

(** X7. The rows of a successful [fetch_results] are the rows the backend
    handed over, in order.  Without a (non-empty) description each is the
    plain list of its cells.  With one, each is a dictionary whose keys
    are column names within the row's width and which maps a column name
    to the cell at the last position carrying that name, hence to the
    cell of its own position when column names are distinct. *)
Theorem fetched_rows_shape (s s' : State) (cursor_id : string) (max_rows : Z)
    (r : FetchResult) :
  fetch_results cursor_id max_rows s = (Return r, s') ->
  exists (cursor : Cursor) (rows : list (list pyval)),
    Dict.get cursor_id (cursors (self s)) = Some cursor /\
    cursor_fetchmany cursor max_rows (world s) = (inr rows, world s') /\
    length (fetch_rows r) = length rows /\
    forall (j : nat) (row : list pyval),
      nth_error rows j = Some row ->
      match cursor_description cursor (world s') with
      | Some (c :: cs) =>
          exists d : Dict.t pyval,
            nth_error (fetch_rows r) j = Some (VDict d) /\
            (forall n, Dict.mem n d = true ->
                       In n (firstn (length row) (map col_name (c :: cs)))) /\
            (forall i col v,
                nth_error (c :: cs) i = Some col ->
                nth_error row i = Some v ->
                (forall i', i < i' -> i' < length row ->
                            nth_error (map col_name (c :: cs)) i' <> Some (col_name col)) ->
                Dict.get (col_name col) d = Some v)
      | _ => nth_error (fetch_rows r) j = Some (VList row)
      end.
Proof.
  intros H.
  destruct (Dict.get cursor_id (cursors (self s))) as [cursor|] eqn:Hget.
  2:{ revert H. unfold fetch_results, Dict.mem. unfold_monad. rewrite Hget.
      simpl. discriminate. }
  rewrite fetch_results_known with (cursor := cursor) in H by exact Hget.
  destruct (cursor_fetchmany _ _ _) as [[msg|rows] w'] eqn:Hfetch; [discriminate|].
  injection H as <- <-. exists cursor, rows. simpl.
  split; [reflexivity|]. split; [exact Hfetch|].
  split; [apply result_rows_length|].
  intros j row Hj. unfold result_rows.
  destruct (cursor_description cursor w') as [[|c cs]|].
  - now apply map_nth_error.
  - exists (dict_of_zip (map col_name (c :: cs)) row).
    split; [|split].
    + now apply (map_nth_error (fun row => VDict (dict_of_zip (map col_name (c :: cs)) row))).
    + intros n. apply dict_of_zip_keys.
    + intros i col v Hcol Hv Hlast.
      apply dict_of_zip_get with (i := i); auto.
      now apply map_nth_error.
  - now apply map_nth_error.
Qed.

(** X8. [has_more] of a successful [fetch_results] is false exactly when
    fewer rows than [max_rows] came back; for [max_rows <= 0] it is
    therefore always true, whatever the backend returned. *)
Theorem has_more_edge (s s' : State) (cursor_id : string) (max_rows : Z)
    (r : FetchResult) :
  fetch_results cursor_id max_rows s = (Return r, s') ->
  (fetch_has_more r = false <-> (Z.of_nat (length (fetch_rows r)) < max_rows)%Z) /\
  ((max_rows <= 0)%Z -> fetch_has_more r = true).
Proof.
  intros H.
  destruct (Dict.get cursor_id (cursors (self s))) as [cursor|] eqn:Hget.
  2:{ revert H. unfold fetch_results, Dict.mem. unfold_monad. rewrite Hget.
      simpl. discriminate. }
  rewrite fetch_results_known with (cursor := cursor) in H by exact Hget.
  destruct (cursor_fetchmany _ _ _) as [[msg|rows] w']; [discriminate|].
  injection H as <- <-. simpl. rewrite result_rows_length.
  rewrite Z.geb_leb. split.
  - rewrite Z.leb_gt. tauto.
  - intros Hn. apply Z.leb_le. lia.
Qed.

End Results.

Section Errors.
Context {B : Backend}.


(** X10. [create_connection], [execute_query] and [fetch_results] raise
    nothing but the driver's own error, whose message tells the stage:
    "Failed to connect to Trino: ", the "does not exist" message, or
    "Query execution error: " / "Error fetching results: " followed by
    the backend's message.  [execute_query], [fetch_results] and
    [get_connection_info] leave the three dictionaries as they were,
    whether they return or raise, and so does a [create_connection] that
    raises. *)
Theorem driver_errors_and_frames :
  (forall (s s' : State) (uuid4 : string) (params : Dict.t pyval) (e : exn),
      create_connection uuid4 params s = (Raise e, s') ->
      self s' = self s /\
      exists msg, e = TrinoODBCError ("Failed to connect to Trino: " ++ msg)) /\
  (forall (s s' : State) (k q : string) (ps : option (list pyval))
          (r : result ExecuteResult),
      execute_query k q ps s = (r, s') ->
      self s' = self s /\
      forall e, r = Raise e ->
        e = TrinoODBCError ("Cursor " ++ k ++ " does not exist") \/
        exists msg, e = TrinoODBCError ("Query execution error: " ++ msg)) /\
  (forall (s s' : State) (k : string) (n : Z) (r : result FetchResult),
      fetch_results k n s = (r, s') ->
      self s' = self s /\
      forall e, r = Raise e ->
        e = TrinoODBCError ("Cursor " ++ k ++ " does not exist") \/
        exists msg, e = TrinoODBCError ("Error fetching results: " ++ msg)) /\
  (forall (s s' : State) (h : string) (r : result (Dict.t pyval)),
      get_connection_info h s = (r, s') -> s' = s).
Proof.
  split; [|split; [|split]].
  - intros s s' uuid4 params e H.
    destruct (trino_connect (connect_args params (basic_auth params)) (world s))
      as [[msg|conn] w'] eqn:Hc.
    + rewrite (create_connection_refused _ _ _ Hc) in H.
      injection H as <- <-. split; [reflexivity|]. eexists. reflexivity.
    + rewrite (create_connection_accepted _ _ _ Hc) in H. discriminate.
  - intros s s' k q ps r H. split; [eapply execute_query_frame; eauto|].
    intros e ->.
    destruct (Dict.get k (cursors (self s))) as [cur|] eqn:Hget.
    + rewrite execute_query_known with (cursor := cur) in H by exact Hget.
      destruct (cursor_execute _ _ _) as [[msg|u] w']; [|discriminate].
      injection H as <- _. right. eexists. reflexivity.
    + revert H. unfold execute_query, Dict.mem. unfold_monad. rewrite Hget. simpl.
      intros H. injection H as <- _. left. reflexivity.
  - intros s s' k n r H. split; [eapply fetch_results_frame; eauto|].
    intros e ->.
    destruct (Dict.get k (cursors (self s))) as [cur|] eqn:Hget.
    + rewrite fetch_results_known with (cursor := cur) in H by exact Hget.
      destruct (cursor_fetchmany _ _ _) as [[msg|rows] w']; [|discriminate].
      injection H as <- _. right. eexists. reflexivity.
    + revert H. unfold fetch_results, Dict.mem. unfold_monad. rewrite Hget. simpl.
      intros H. injection H as <- _. left. reflexivity.
  - intros s s' h r H. eapply get_connection_info_frame; eauto.
Qed.

End Errors.

(** ** More on interleaved callers *)

Section ThreadParams.
Context {B : Backend}.

(** A statement inside a locked block takes the relation between the two
    key lists from one program point to the next. *)
Lemma local_keeps_params (p p' : pc) (s s' : State) :
  local p s = Some (p', s') ->
  in_critical p = true ->
  params_point (self s) p -> params_point (self s') p'.
Proof.
  intros H Hin Hpt.
  destruct p; simpl in Hin; try discriminate Hin;
    simpl in H; local_cases H; unfold params_point in *; simpl in *;
    try (first [exact Hpt | exact (proj1 Hpt) | tauto]).
  - (* self.connections[connection_id] = conn *)
    rewrite DictFacts.keys_set.
    rewrite (DictFacts.mem_same_keys _ _ connection_id Hpt). now rewrite Hpt.
  - (* self.connection_params[connection_id] = params *)
    now rewrite DictFacts.keys_set.
  - (* del self.connections[connection_id] *)
    destruct Hpt as [Hkeys Hmem]. split.
    + now rewrite <- (DictFacts.mem_same_keys _ _ connection_id Hkeys).
    + rewrite DictFacts.keys_del. now rewrite Hkeys.
  - (* del self.connection_params[connection_id] *)
    rewrite DictFacts.keys_del. tauto.
  - (* the handle is in the parameters, so this branch is not taken *)
    destruct Hpt as [Hmem _]. congruence.
  - (* the test of get_connection_info passed *)
    split; [exact Hpt|].
    match goal with E : negb _ = false |- _ => apply negb_false_iff in E; exact E end.
Qed.

Lemma params_point_acquire (m : ConnectionManager) (p p' : pc) :
  acquire p = Some p' -> keys_in_step m -> params_point m p'.
Proof.
  destruct p; simpl; intros H; try discriminate H; injection H as <-; auto.
Qed.

Lemma params_point_release (m : ConnectionManager) (p p' : pc) :
  release p = Some p' -> params_point m p -> keys_in_step m.
Proof. destruct p; simpl; intros H; try discriminate H; auto. Qed.

Lemma step_keeps_params (t : nat) (c c' : config) :
  lock_inv c -> params_inv c -> step t c c' -> params_inv c'.
Proof.
  intros Hlock [Hfree Hpt] Hstep.
  assert (Hone : forall t', in_critical (threads c t) = true ->
                            in_critical (threads c t') = true -> t' = t).
  { intros t' H1 H2. apply Hlock in H1. apply Hlock in H2. congruence. }
  inversion Hstep as [o Hidle | p' Hacq Hnone | p' Hrel | p' s' Hloc | r Hdone];
    subst c'; split; cbn [shared lock threads].
  - exact Hfree.
  - intros t' Ht'. destruct (Nat.eq_dec t' t) as [->|Hne].
    + rewrite set_thread_same in Ht'. destruct o; discriminate.
    + rewrite set_thread_other in *; auto.
  - discriminate.
  - intros t' Ht'. destruct (Nat.eq_dec t' t) as [->|Hne].
    + rewrite set_thread_same. eapply params_point_acquire; eauto.
    + rewrite set_thread_other in Ht' by exact Hne.
      apply Hlock in Ht'. congruence.
  - intros _. destruct (release_critical _ Hrel) as [Hin _].
    eapply params_point_release; eauto.
  - destruct (release_critical _ Hrel) as [Hin Hout].
    intros t' Ht'. destruct (Nat.eq_dec t' t) as [->|Hne].
    + rewrite set_thread_same in Ht'. congruence.
    + rewrite set_thread_other in Ht' by exact Hne.
      specialize (Hone t' Hin Ht'). contradiction.
  - intros Hnone. destruct (in_critical (threads c t)) eqn:Hin.
    + apply Hlock in Hin. congruence.
    + rewrite (local_outside _ _ Hloc Hin). auto.
  - intros t' Ht'. destruct (Nat.eq_dec t' t) as [->|Hne].
    + rewrite set_thread_same in *.
      rewrite (local_critical _ _ Hloc) in Ht'.
      eapply local_keeps_params; eauto.
    + rewrite set_thread_other in * by exact Hne.
      destruct (in_critical (threads c t)) eqn:Hin.
      * specialize (Hone t' eq_refl Ht'). contradiction.
      * rewrite (local_outside _ _ Hloc Hin). auto.
  - exact Hfree.
  - intros t' Ht'. destruct (Nat.eq_dec t' t) as [->|Hne].
    + rewrite set_thread_same in Ht'. discriminate.
    + rewrite set_thread_other in *; auto.
Qed.

Lemma reachable_params (w : World) (c : config) : reachable w c -> params_inv c.
Proof.
  induction 1 as [|c c' t Hreach IH Hstep].
  - split; [reflexivity | intros t Ht; discriminate].
  - eapply step_keeps_params; eauto.
    now destruct (reachable_inv Hreach).
Qed.

(** X11. Under any interleaving, whenever the lock is free
    [self.connections] and [self.connection_params] have the same keys;
    and the two statements that read or delete the stored parameters
    without a test of their own, in [get_connection_info] and at the end
    of [close_connection], always find the handle there, so neither
    method can raise a [KeyError]. *)
Theorem params_in_step_under_threads (w : World) (c : config) :
  reachable w c ->
  (lock c = None -> keys_in_step (self (shared c))) /\
  (forall (t : nat) (h : string),
      threads c t = Info_read h ->
      exists params, Dict.get h (connection_params (self (shared c))) = Some params) /\
  (forall (t : nat) (h : string),
      threads c t = CloseConn_del_params h ->
      Dict.mem h (connection_params (self (shared c))) = true).
Proof.
  intros Hreach. destruct (reachable_params Hreach) as [Hfree Hpt].
  split; [exact Hfree | split].
  - intros t h Hp. specialize (Hpt t). rewrite Hp in Hpt.
    destruct (Hpt eq_refl) as [Hkeys Hmem].
    apply DictFacts.mem_get.
    now rewrite <- (DictFacts.mem_same_keys _ _ h Hkeys).
  - intros t h Hp. specialize (Hpt t). rewrite Hp in Hpt.
    now destruct (Hpt eq_refl).
Qed.

(** Inside a locked block a thread always has a next step of its own. *)
Lemma critical_can_move (p : pc) (s : State) :
  in_critical p = true ->
  (exists p', release p = Some p') \/ (exists p' s', local p s = Some (p', s')).
Proof.
  intros Hin.
  destruct p; simpl in Hin; try discriminate Hin; simpl;
    try (left; eexists; reflexivity);
    right;
    repeat match goal with
           | |- context [match ?x with _ => _ end] => destruct x
           | |- context [if ?x then _ else _] => destruct x
           end;
    eexists; eexists; reflexivity.
Qed.

Lemma step_keeps_holder (t : nat) (c c' : config) :
  lock_inv c -> holder_inv c -> step t c c' -> holder_inv c'.
Proof.
  intros Hlock Hhold Hstep.
  inversion Hstep as [o Hidle | p' Hacq Hnone | p' Hrel | p' s' Hloc | r Hdone];
    subst c'; intros t' Ht'; cbn [shared lock threads] in *.
  - destruct (Nat.eq_dec t' t) as [->|Hne].
    + apply Hhold in Ht'. rewrite Hidle in Ht'. discriminate.
    + rewrite set_thread_other by exact Hne. auto.
  - injection Ht' as <-. rewrite set_thread_same.
    now destruct (acquire_critical _ Hacq).
  - discriminate.
  - destruct (Nat.eq_dec t' t) as [->|Hne].
    + rewrite set_thread_same. rewrite (local_critical _ _ Hloc). auto.
    + rewrite set_thread_other by exact Hne. auto.
  - destruct (Nat.eq_dec t' t) as [->|Hne].
    + apply Hhold in Ht'. rewrite Hdone in Ht'. discriminate.
    + rewrite set_thread_other by exact Hne. auto.
Qed.

Lemma reachable_holder (w : World) (c : config) : reachable w c -> holder_inv c.
Proof.
  induction 1 as [|c c' t Hreach IH Hstep].
  - intros t Ht. discriminate.
  - eapply step_keeps_holder; eauto.
    now destruct (reachable_inv Hreach).
Qed.

(** X12. Under any interleaving the lock is taken exactly while its
    holder is inside a [with self.lock:] block: no method returns or
    raises with the lock still taken, at most one thread is inside a
    block, and the thread inside a block always has a next step, so the
    lock is never held by a thread that cannot go on. *)
Theorem lock_discipline (w : World) (c : config) :
  reachable w c ->
  (forall t : nat, lock c = Some t <-> in_critical (threads c t) = true) /\
  (forall t t' : nat,
      in_critical (threads c t) = true -> in_critical (threads c t') = true -> t = t') /\
  (forall t : nat, in_critical (threads c t) = true -> exists c', step t c c').
Proof.
  intros Hreach.
  destruct (reachable_inv Hreach) as (Hlock & _ & _).
  pose proof (reachable_holder Hreach) as Hhold.
  split; [|split].
  - intros t. split; auto.
  - intros t t' H1 H2. apply Hlock in H1. apply Hlock in H2. congruence.
  - intros t Hin.
    destruct (critical_can_move (threads c t) (shared c) Hin)
      as [[p' Hrel]|(p' & s' & Hloc)].
    + eexists. eapply step_release; eauto.
    + eexists. eapply step_local; eauto.
Qed.

End ThreadParams.

Section Race.
Context {B : Backend}.

Lemma close_cursor_closes (s : State) (k : string) (cursor : Cursor) (w' : World) :
  Dict.get k (cursors (self s)) = Some cursor ->
  cursor_close cursor (world s) = (inr tt, w') ->
  close_cursor k s =
  (Return true,
   {| self := {| connections := connections (self s);
                 cursors := Dict.del k (cursors (self s));
                 connection_params := connection_params (self s) |};
      world := w' |}).
Proof.
  intros Hget Hclose. unfold close_cursor. unfold_monad. simpl.
  rewrite (DictFacts.get_some_mem _ _ Hget). simpl. rewrite Hget. simpl.
  rewrite Hclose. simpl. unfold ret, raise.
  now rewrite (DictFacts.get_some_mem _ _ Hget).
Qed.

(** X14. The existence check of [execute_query] does not cover its
    lookup: the lock is released in between.  When a thread has passed
    the check for a cursor and another thread then runs [close_cursor] on
    it, the first thread's [self.cursors[cursor_id]] raises a [KeyError]
    inside the [try], and the call fails with "Query execution error: "
    followed by the quoted handle instead of the "does not exist"
    error. *)
Theorem execute_query_check_then_use (c : config) (t t' : nat) (k q : string)
    (ps : option (list pyval)) (cursor : Cursor) (w' : World) :
  t' <> t ->
  threads c t = Exec_lookup k q ps ->
  threads c t' = Idle ->
  lock c = None ->
  Dict.get k (cursors (self (shared c))) = Some cursor ->
  cursor_close cursor (world (shared c)) = (inr tt, w') ->
  exists c1 c2 : config,
    steps t' c c1 /\
    threads c1 t' = Done (Return (Flag true)) /\
    step t c1 c2 /\
    threads c2 t =
      Done (Raise (TrinoODBCError ("Query execution error: '" ++ k ++ "'"))).
Proof.
  intros Hne Ht Ht' Hfree Hget Hclose.
  destruct (solo_steps (solo_call (CloseCursor k) (shared c))
              {| shared := shared c; lock := lock c;
                 threads := set_thread (threads c) t' (entry (CloseCursor k)) |} t')
    as (c1 & Hsteps & Hdone & Hshared & Hlock1 & Hothers); cbn [shared lock threads].
  - apply set_thread_same.
  - reflexivity.
  - exact Hfree.
  - assert (Hcall : call (CloseCursor k) (shared c) =
                    (Return (Flag true),
                     {| self := {| connections := connections (self (shared c));
                                   cursors := Dict.del k (cursors (self (shared c)));
                                   connection_params := connection_params (self (shared c)) |};
                        world := w' |})).
    { simpl. rewrite fmap_eq.
      now rewrite close_cursor_closes with (cursor := cursor) (w' := w') by assumption. }
    rewrite Hcall in Hdone, Hshared. simpl in Hdone, Hshared.
    assert (Ht1 : threads c1 t = Exec_lookup k q ps).
    { rewrite (Hothers t) by congruence. cbn [threads].
      rewrite set_thread_other by congruence. exact Ht. }
    exists c1. eexists. split; [|split; [exact Hdone|split]].
    + eapply steps_more; [|exact Hsteps]. now apply step_call.
    + apply step_local. rewrite Ht1, Hshared. simpl.
      rewrite DictFacts.get_del_eq. reflexivity.
    + cbn [threads]. apply set_thread_same.
Qed.

End Race.

(** ** The request layer *)

Section RouteFacts.
Context {B : Backend}.

Lemma answer_eq {A} (method : M A) (ok : A -> Dict.t pyval) (s : State) :
  Api.answer method ok s =
  match method s with
  | (Return a, s') => (ok_response (ok a), s')
  | (Raise e, s') => (error_response (str_exn e), s')
  end.
Proof. reflexivity. Qed.

Lemma answer_state {A} (method : M A) (ok : A -> Dict.t pyval) (s : State) :
  snd (Api.answer method ok s) = snd (method s).
Proof. rewrite answer_eq. now destruct (method s) as [[a|e] s']. Qed.

Lemma fmap_state {A C} (f : A -> C) (m : M A) (s : State) :
  snd (fmap f m s) = snd (m s).
Proof. rewrite fmap_eq. now destruct (m s) as [[a|e] s']. Qed.

(** A request changes the state the way its method call does, and not at
    all when it does not get to one. *)
Lemma handle_state (r : request) (s : State) :
  snd (handle r s) = match op_of r with
                     | Some o => snd (call o s)
                     | None => s
                     end.
Proof.
  destruct r as [| u p | h | h u | k | k [q|] ps | k n | h]; cbn [handle op_of];
    try reflexivity;
    try (unfold Api.create_connection, Api.close_connection, Api.create_cursor,
           Api.close_cursor, Api.fetch_results, Api.get_connection_info;
         cbn [call]; now rewrite answer_state, fmap_state).
  unfold Api.execute_query.
  destruct (negb (truthy (VStr q))); [reflexivity|].
  cbn [call]. now rewrite answer_state, fmap_state.
Qed.

Lemma serve_state (rs : list request) :
  forall s : State, snd (serve rs s) = run (ops_of rs) s.
Proof.
  induction rs as [|r rs IH]; intros s; [reflexivity|].
  simpl. pose proof (handle_state r s) as Hr.
  destruct (handle r s) as [resp s1]. simpl in Hr.
  specialize (IH s1). destruct (serve rs s1) as [resps s2]. simpl in *.
  destruct (op_of r) as [o|].
  - rewrite run_cons. congruence.
  - congruence.
Qed.

Lemma serve_length (rs : list request) :
  forall s : State, length (fst (serve rs s)) = length rs.
Proof.
  induction rs as [|r rs IH]; intros s; [reflexivity|].
  simpl. destruct (handle r s) as [resp s1]. specialize (IH s1).
  destruct (serve rs s1) as [resps s2]. simpl in *. congruence.
Qed.

Lemma close_cursor_false (s s' : State) (k : string) :
  close_cursor k s = (Return false, s') -> Dict.mem k (cursors (self s)) = false.
Proof.
  unfold close_cursor. unfold_monad. simpl.
  destruct (Dict.mem k (cursors (self s))) eqn:Hmem; auto. simpl.
  destruct (Dict.get k (cursors (self s))); simpl; [|discriminate].
  destruct (cursor_close _ _) as [[msg|u] w']; simpl; [discriminate|].
  unfold ret, raise. rewrite Hmem. simpl. discriminate.
Qed.

Lemma execute_query_success (s s' : State) (k q : string)
    (ps : option (list pyval)) (r : ExecuteResult) :
  execute_query k q ps s = (Return r, s') -> exec_success r = true.
Proof.
  destruct (Dict.get k (cursors (self s))) as [cur|] eqn:Hget.
  - rewrite execute_query_known with (cursor := cur) by exact Hget.
    destruct (cursor_execute _ _ _) as [[msg|u] w']; [discriminate|].
    intros H. now injection H as <- _.
  - unfold execute_query, Dict.mem. unfold_monad. rewrite Hget. discriminate.
Qed.

Lemma fetch_results_success (s s' : State) (k : string) (n : Z) (r : FetchResult) :
  fetch_results k n s = (Return r, s') -> fetch_success r = true.
Proof.
  destruct (Dict.get k (cursors (self s))) as [cur|] eqn:Hget.
  - rewrite fetch_results_known with (cursor := cur) by exact Hget.
    destruct (cursor_fetchmany _ _ _) as [[msg|rows] w']; [discriminate|].
    intros H. now injection H as <- _.
  - unfold fetch_results, Dict.mem. unfold_monad. rewrite Hget. discriminate.
Qed.


(** X15. Every route answers with status 200 or 400.  A 400 always
    carries the envelope {"success": false, "error": message} and nothing
    else.  A 200 carries "success" (the status route apart), and
    "success" is false on a 200 only for a DELETE on a handle that is not
    registered: a failure of any other kind is a 400. *)
Theorem error_envelope (r : request) (s : State) :
  (status (fst (handle r s)) = 200 \/ status (fst (handle r s)) = 400)%Z /\
  (status (fst (handle r s)) = 400%Z ->
   exists msg : string,
     body (fst (handle r s)) = [("success", VBool false); ("error", VStr msg)]) /\
  (status (fst (handle r s)) = 200%Z ->
   r = GetStatus \/
   exists b : bool,
     Dict.get "success" (body (fst (handle r s))) = Some (VBool b) /\
     (b = false ->
      (exists h, r = DeleteConnection h /\
                 Dict.mem h (connections (self s)) = false) \/
      (exists k, r = DeleteCursor k /\
                 Dict.mem k (cursors (self s)) = false))).
Proof.
  destruct r as [| u p | h | h u | k | k [q|] ps | k n | h]; cbn [handle].
  - simpl. repeat split; auto. discriminate.
  - unfold Api.create_connection. rewrite answer_eq.
    destruct (create_connection u p s) as [[a|e] s']; simpl;
      repeat split; auto; try discriminate; eauto.
    intros _. right. exists true. split; auto. discriminate.
  - unfold Api.close_connection. rewrite answer_eq.
    destruct (close_connection h s) as [[b|e] s'] eqn:H; simpl;
      repeat split; auto; try discriminate; eauto.
    intros _. right. exists b. split; auto. intros ->. left. exists h. split; auto.
    destruct (Dict.mem h (connections (self s))) eqn:Hmem; auto.
    exfalso. eapply close_connection_live_not_false; eauto.
  - unfold Api.create_cursor. rewrite answer_eq.
    destruct (create_cursor h u s) as [[a|e] s']; simpl;
      repeat split; auto; try discriminate; eauto.
    intros _. right. exists true. split; auto. discriminate.
  - unfold Api.close_cursor. rewrite answer_eq.
    destruct (close_cursor k s) as [[b|e] s'] eqn:H; simpl;
      repeat split; auto; try discriminate; eauto.
    intros _. right. exists b. split; auto. intros ->. right. exists k. split; auto.
    eapply close_cursor_false; eauto.
  - unfold Api.execute_query.
    destruct (negb (truthy (VStr q))); simpl.
    { repeat split; auto; try discriminate; eauto. }
    rewrite answer_eq.
    destruct (execute_query k q ps s) as [[a|e] s'] eqn:H; simpl;
      repeat split; auto; try discriminate; eauto.
    intros _. right. exists true. split; [|discriminate].
    now rewrite (execute_query_success _ _ _ _ H).
  - unfold Api.execute_query. simpl.
    repeat split; auto; try discriminate; eauto.
  - unfold Api.fetch_results. rewrite answer_eq.
    destruct (fetch_results k _ s) as [[a|e] s'] eqn:H; simpl;
      repeat split; auto; try discriminate; eauto.
    intros _. right. exists true. split; [|discriminate].
    now rewrite (fetch_results_success _ _ _ H).
  - unfold Api.get_connection_info. rewrite answer_eq.
    destruct (get_connection_info h s) as [[a|e] s']; simpl;
      repeat split; auto; try discriminate; eauto.
    intros _. right. exists true. split; auto. discriminate.
Qed.

(** X16. A handle that is not registered is a 200 with "success": false
    on the two DELETE routes and a 400 with the "does not exist" message
    on every other route; in all six cases nothing changes, and the
    backend is not called. *)
Theorem unknown_handles_over_http (s : State) (h k u q : string)
    (ps : option (list pyval)) (n : option Z) :
  Dict.mem h (connections (self s)) = false ->
  Dict.mem k (cursors (self s)) = false ->
  q <> "" ->
  handle (DeleteConnection h) s = (ok_response [("success", VBool false)], s) /\
  handle (DeleteCursor k) s = (ok_response [("success", VBool false)], s) /\
  handle (PostCursor h u) s =
    (error_response ("Connection " ++ h ++ " does not exist"), s) /\
  handle (GetInfo h) s =
    (error_response ("Connection " ++ h ++ " does not exist"), s) /\
  handle (PostExecute k (Some q) ps) s =
    (error_response ("Cursor " ++ k ++ " does not exist"), s) /\
  handle (GetFetch k n) s =
    (error_response ("Cursor " ++ k ++ " does not exist"), s).
Proof.
  intros Hh Hk Hq. cbn [handle].
  unfold Api.close_connection, Api.close_cursor, Api.create_cursor,
    Api.get_connection_info, Api.execute_query, Api.fetch_results.
  assert (Hq' : negb (truthy (VStr q)) = false).
  { simpl. rewrite negb_involutive. now apply String.eqb_neq. }
  rewrite Hq'. rewrite !answer_eq.
  unfold close_connection, close_cursor, create_cursor, get_connection_info,
    execute_query, fetch_results, bind, get_self, ret, raise.
  rewrite Hh, Hk. simpl. repeat split; reflexivity.
Qed.


(** X18. Behind the routes the registry is only ever in a state some
    sequence of method calls reaches: serving requests one after the
    other ends in the state of running the calls they lead to (requests
    that do not get to a call, the status route and an execute without a
    query, leave it alone).  So the registry's invariants hold between
    any two requests, and there is one response per request. *)
Theorem requests_run_the_methods (rs : list request) (w : World) :
  snd (serve rs (init w)) = run (ops_of rs) (init w) /\
  length (fst (serve rs (init w))) = length rs /\
  keys_in_step (self (snd (serve rs (init w)))) /\
  cursors_owned (self (snd (serve rs (init w)))).
Proof.
  rewrite serve_state. split; [reflexivity|]. split; [apply serve_length|]. split.
  - apply run_invariant; [intros; eapply call_keeps_in_step; eauto | apply init_in_step].
  - intros k Hk.
    destruct (@run_keeps_opened _ (ops_of rs) [] (init w) (@init_opened _ w) k Hk)
      as (c & u & _ & Hshape & Hlive).
    eauto.
Qed.

End RouteFacts.

(** ** The added properties on the scripted backend *)

Lemma fake_closes_succeed : closes_succeed Fake.backend.
Proof. split; intros c w; exists w; reflexivity. Qed.

Lemma checked_reachable : reachable (B := Fake.backend) Fake.w0 Scenario.checked.
Proof.
  apply exec_all_reachable with (ms := Scenario.schedule)
                                (c := initial (B := Fake.backend) Fake.w0).
  - apply reachable_initial.
  - reflexivity.
Qed.

Lemma close_connection_succeeds_witness :
  fst (close_connection (B := Fake.backend) Fake.uuid_a Fake.s1) = Return true /\
  cursors (self (snd (close_connection (B := Fake.backend) Fake.uuid_a Fake.s1))) = [].
Proof.
  destruct (@close_connection_succeeds Fake.backend
              [OpenConnection Fake.uuid_a Fake.alice; OpenCursor Fake.uuid_a Fake.uuid_b]
              Fake.w0 Fake.uuid_a fake_closes_succeed eq_refl) as [w' Hclose].
  unfold Fake.s1. rewrite Hclose. split; reflexivity.
Defined.

Lemma close_connection_spares_others_witness :
  Dict.get (Fake.uuid_c ++ "_" ++ Fake.uuid_b)%string
    (cursors (self (snd (close_connection (B := Fake.backend) Fake.uuid_a Scenario.s2))))
  = Dict.get (Fake.uuid_c ++ "_" ++ Fake.uuid_b)%string (cursors (self Scenario.s2)).
Proof.
  destruct (@close_connection_spares_others Fake.backend Scenario.s2
              (snd (close_connection (B := Fake.backend) Fake.uuid_a Scenario.s2))
              Fake.uuid_a
              (fst (close_connection (B := Fake.backend) Fake.uuid_a Scenario.s2))
              eq_refl) as (_ & _ & Huuid).
  apply Huuid; [reflexivity | reflexivity | discriminate].
Defined.

Lemma close_connection_outcomes_witness :
  Dict.mem Fake.uuid_a
    (connections (self (snd (close_connection (B := Fake.backend) Fake.uuid_a Fake.s1))))
  = false.
Proof.
  destruct (@close_connection_outcomes Fake.backend
              [OpenConnection Fake.uuid_a Fake.alice; OpenCursor Fake.uuid_a Fake.uuid_b]
              Fake.w0 Fake.uuid_a (Return true)
              (snd (close_connection (B := Fake.backend) Fake.uuid_a Fake.s1)) eq_refl)
    as [(Hunknown & _)|[(_ & _ & Hgone & _)|(_ & (msg & Hraise) & _)]].
  - discriminate Hunknown.
  - exact Hgone.
  - discriminate Hraise.
Defined.

Lemma closed_connection_is_unknown_witness :
  execute_query (B := Fake.backend) Fake.cursor_1 "SELECT 1" None
    (snd (close_connection (B := Fake.backend) Fake.uuid_a Fake.s1)) =
  (Raise (TrinoODBCError ("Cursor " ++ Fake.cursor_1 ++ " does not exist")),
   snd (close_connection (B := Fake.backend) Fake.uuid_a Fake.s1)).
Proof.
  destruct (@closed_connection_is_unknown Fake.backend Fake.s1
              (snd (close_connection (B := Fake.backend) Fake.uuid_a Fake.s1))
              Fake.uuid_a eq_refl) as (_ & _ & Hall).
  destruct (Hall Fake.uuid_b "SELECT 1" None 10%Z) as (_ & Hexec & _).
  exact Hexec.
Defined.

Lemma cursor_open_close_round_trip_witness :
  exists s1 s2 : State,
    create_cursor (B := Fake.backend) Fake.uuid_a Fake.uuid_c Fake.s1 =
      (Return (Fake.uuid_a ++ "_" ++ Fake.uuid_c)%string, s1) /\
    close_cursor (B := Fake.backend) (Fake.uuid_a ++ "_" ++ Fake.uuid_c)%string s1 =
      (Return true, s2) /\
    Dict.get Fake.cursor_1 (cursors (self s2)) = Dict.get Fake.cursor_1 (cursors (self Fake.s1)).
Proof.
  destruct (@cursor_open_close_round_trip Fake.backend Fake.s1 Fake.uuid_a Fake.uuid_c
              0 2 (Fake.fresh_ref (world Fake.s1)) (Fake.fresh_ref (world Fake.s1))
              eq_refl eq_refl eq_refl)
    as (s1 & s2 & Hopen & _ & Hclose & _ & _ & _ & _ & Hothers).
  exists s1, s2. split; [exact Hopen | split; [exact Hclose|]].
  apply Hothers. discriminate.
Defined.

Lemma execute_result_shape_witness :
  exists r : ExecuteResult,
    fst (execute_query (B := Fake.backend) Fake.cursor_1 "SELECT 1" None Fake.s1) = Return r /\
    exec_rowcount r = (-1)%Z /\ exec_columns r = [].
Proof.
  destruct (@execute_result_shape Fake.backend Fake.s1
              (snd (execute_query (B := Fake.backend) Fake.cursor_1 "SELECT 1" None Fake.s1))
              Fake.cursor_1 "SELECT 1" None
              {| exec_success := true; exec_columns := []; exec_rowcount := -1 |}
              eq_refl) as (cursor & _ & _ & _ & _ & Hneg & Hcols).
  eexists. split; [reflexivity|]. split; [reflexivity | exact Hcols].
Defined.

Lemma fetched_rows_shape_witness :
  exists (cursor : nat) (rows : list (list pyval)),
    Dict.get Fake.cursor_1 (cursors (self Scenario.s_described)) = Some cursor /\
    length (fetch_rows
              {| fetch_success := true;
                 fetch_rows := [VDict [("id", VInt 1); ("name", VStr "a")]];
                 fetch_has_more := true |}) = length rows.
Proof.
  destruct (@fetched_rows_shape Fake.backend Scenario.s_described
              (snd (fetch_results (B := Fake.backend) Fake.cursor_1 1 Scenario.s_described))
              Fake.cursor_1 1%Z
              {| fetch_success := true;
                 fetch_rows := [VDict [("id", VInt 1); ("name", VStr "a")]];
                 fetch_has_more := true |}
              eq_refl) as (cursor & rows & Hget & _ & Hlen & _).
  exists cursor, rows. split; [exact Hget | exact Hlen].
Defined.

Lemma has_more_edge_witness :
  fetch_has_more {| fetch_success := true; fetch_rows := []; fetch_has_more := true |}
  = true.
Proof.
  destruct (@has_more_edge Fake.backend Fake.s1
              (snd (fetch_results (B := Fake.backend) Fake.cursor_1 0 Fake.s1))
              Fake.cursor_1 0%Z
              {| fetch_success := true; fetch_rows := []; fetch_has_more := true |}
              eq_refl) as (_ & Hzero).
  apply Hzero. lia.
Defined.


Lemma driver_errors_and_frames_witness :
  self (snd (execute_query (B := Fake.backend) Fake.cursor_1 "SELECT boom" None Fake.s1))
  = self Fake.s1.
Proof.
  destruct (@driver_errors_and_frames Fake.backend) as (_ & Hexec & _).
  destruct (Hexec Fake.s1
              (snd (execute_query (B := Fake.backend) Fake.cursor_1 "SELECT boom" None Fake.s1))
              Fake.cursor_1 "SELECT boom" None
              (fst (execute_query (B := Fake.backend) Fake.cursor_1 "SELECT boom" None Fake.s1))
              eq_refl) as (Hself & _).
  exact Hself.
Defined.

Lemma params_in_step_under_threads_witness :
  keys_in_step (self (shared Scenario.checked)).
Proof.
  destruct (@params_in_step_under_threads Fake.backend Fake.w0 Scenario.checked
              checked_reachable) as (Hfree & _).
  apply Hfree. reflexivity.
Defined.

Lemma lock_discipline_witness :
  in_critical (threads Fake.mid_close 1) = true /\
  exists c' : config, step 1 Fake.mid_close c'.
Proof.
  destruct (@lock_discipline Fake.backend Fake.w0 Fake.mid_close mid_close_reachable)
    as (Hheld & _ & Hmoves).
  split.
  - apply (proj1 (Hheld 1)). reflexivity.
  - apply Hmoves. reflexivity.
Defined.

Lemma thread_alone_runs_method_witness :
  exists c' : config,
    steps 0 {| shared := Fake.s1; lock := None; threads := fun _ => Idle |} c' /\
    threads c' 0 = Done (Return (Flag true)) /\
    lock c' = None.
Proof.
  destruct (@thread_alone_runs_method Fake.backend (CloseConnection Fake.uuid_a)
              Fake.s1 0 (fun _ => Idle) eq_refl)
    as (c' & Hsteps & Hdone & _ & Hfree & _).
  exists c'. split; [exact Hsteps | split; [exact Hdone | exact Hfree]].
Defined.

Lemma execute_query_check_then_use_witness :
  exists c1 c2 : config,
    steps 1 Scenario.checked c1 /\
    step 0 c1 c2 /\
    threads c2 0 =
      Done (Raise (TrinoODBCError ("Query execution error: '" ++ Fake.cursor_1 ++ "'"))).
Proof.
  destruct (@execute_query_check_then_use Fake.backend Scenario.checked 0 1
              Fake.cursor_1 "SELECT 1" None 1 (world (shared Scenario.checked))
              (Nat.neq_succ_0 0) eq_refl eq_refl eq_refl eq_refl eq_refl)
    as (c1 & c2 & Hsteps & _ & Hstep & Hdone).
  exists c1, c2. split; [exact Hsteps | split; [exact Hstep | exact Hdone]].
Defined.

Lemma error_envelope_witness :
  exists msg : string,
    body (fst (handle (B := Fake.backend) (GetInfo "nonexistent") Fake.s1)) =
    [("success", VBool false); ("error", VStr msg)].
Proof.
  destruct (@error_envelope Fake.backend (GetInfo "nonexistent") Fake.s1)
    as (_ & Hbad & _).
  apply Hbad. reflexivity.
Defined.

Lemma unknown_handles_over_http_witness :
  handle (B := Fake.backend) (DeleteConnection "nonexistent") Fake.s1 =
    (ok_response [("success", VBool false)], Fake.s1) /\
  handle (B := Fake.backend) (PostCursor "nonexistent" Fake.uuid_c) Fake.s1 =
    (error_response "Connection nonexistent does not exist", Fake.s1).
Proof.
  destruct (@unknown_handles_over_http Fake.backend Fake.s1 "nonexistent" "nonexistent"
              Fake.uuid_c "SELECT 1" None None eq_refl eq_refl)
    as (Hdel & _ & Hpost & _).
  - discriminate.
  - split; [exact Hdel | exact Hpost].
Defined.


Lemma requests_run_the_methods_witness :
  length (fst (serve (B := Fake.backend) Scenario.session (init (B := Fake.backend) Fake.w0))) = 7 /\
  keys_in_step (self (snd (serve (B := Fake.backend) Scenario.session (init (B := Fake.backend) Fake.w0)))).
Proof.
  destruct (@requests_run_the_methods Fake.backend Scenario.session Fake.w0)
    as (_ & Hlen & Hkeys & _).
  split; [exact Hlen | exact Hkeys].
Defined.

Lemma close_cursor_outcomes_witness :
  Dict.mem Fake.cursor_1
    (cursors (self (snd (close_cursor (B := Fake.backend) Fake.cursor_1 Fake.s1)))) = false.
Proof.
  destruct (@close_cursor_outcomes Fake.backend Fake.s1
              (snd (close_cursor (B := Fake.backend) Fake.cursor_1 Fake.s1))
              Fake.cursor_1 (Return true) eq_refl)
    as [(Hunknown & _)|(cursor & _ & _ & _ & [(_ & _ & Hgone & _)|(msg & Hraise & _)])].
  - discriminate Hunknown.
  - exact Hgone.
  - discriminate Hraise.
Defined.
